(** * Surface-code and heavy-hex cycle builders, logical qubits

    A shallow embedding of [surfacecode/surface.py] and
    [surfacecode/logical_qubit.py].

    Python integers are [Z].  A Python exception is a [Raise] in the
    [result] monad.  The lattice is the one mutable object the code
    shares; functions that mutate it take it and give it back.

    The quantum-circuit library is an outside collaborator: a circuit
    is the log of the operations the code asks for, in the order it
    asks for them, and a qubit index the library refuses is a
    [CircuitError]. *)

From Stdlib Require Import ZArith List Bool String Lia Permutation.
From Equations Require Import Equations.
Import ListNotations.
Open Scope string_scope.
Open Scope list_scope.
Open Scope Z_scope.

(** ** Exceptions and the error monad *)

Inductive exn : Type :=
| AssertionError
| IndexError
| KeyError
| CircuitError
| ZeroDivisionError.

Inductive result (A : Type) : Type :=
| Ok (a : A)
| Raise (e : exn).

Arguments Ok {A} a.
Arguments Raise {A} e.

Definition bind {A B} (m : result A) (k : A -> result B) : result B :=
  match m with
  | Ok a => k a
  | Raise e => Raise e
  end.

Notation "x <- m ;; k" := (bind m (fun x => k))
  (at level 61, m at next level, right associativity).

Definition assert (b : bool) : result unit :=
  if b then Ok tt else Raise AssertionError.

(** [for x in l: a = f(a, x)], stopping at the first exception. *)
Fixpoint foldM {A B} (f : A -> B -> result A) (l : list B) (a : A)
  : result A :=
  match l with
  | [] => Ok a
  | x :: xs => a' <- f a x ;; foldM f xs a'
  end.

(** ** Python containers *)

(** [range(n)] *)
Definition py_range (n : Z) : list Z := map Z.of_nat (seq 0 (Z.to_nat n)).

(** [l[i]] on a Python list: a negative index counts from the end. *)
Definition py_index {A} (l : list A) (i : Z) : result A :=
  let n := Z.of_nat (List.length l) in
  let j := if i <? 0 then i + n else i in
  if (0 <=? j) && (j <? n) then
    match nth_error l (Z.to_nat j) with
    | Some a => Ok a
    | None => Raise IndexError
    end
  else Raise IndexError.

(** [d[k]] on a dict, kept as an association list in insertion order. *)
Fixpoint dict_get {V} (d : list (Z * V)) (k : Z) : result V :=
  match d with
  | [] => Raise KeyError
  | (k', v) :: d' => if k =? k' then Ok v else dict_get d' k
  end.

Definition keys {V} (d : list (Z * V)) : list Z := map fst d.

(** ** Lattice *)

(** Modelled from the spec: [surfacecode/nodes.py] is missing.  The
    node classes, one constructor per class. *)
Inductive Role : Type :=
| BaseNode | DataNode | ZNode | XNode | FlagNode | AncillaNode.

Definition Role_eqb (a b : Role) : bool :=
  match a, b with
  | BaseNode, BaseNode | DataNode, DataNode | ZNode, ZNode
  | XNode, XNode | FlagNode, FlagNode | AncillaNode, AncillaNode => true
  | _, _ => false
  end.

(** Modelled from the spec: [surfacecode/lattice.py] is missing.  A
    node has a role and an [active] flag; an edge record carries the
    neighbour's index ([k.node]) and a cached copy of its activity
    ([k.active]); [nodes] is a list, [graph] a dict from index to the
    ordered list of edge records. *)
Record Node : Type := mkNode { role : Role; node_active : bool }.

Record Edge : Type := mkEdge { node : Z; active : bool }.

Record Lattice : Type := mkLattice {
  nodes : list Node;
  graph : list (Z * list Edge);
  width : Z
}.

Definition len_nodes (lat : Lattice) : Z := Z.of_nat (List.length (nodes lat)).

(** [type(self.lattice.nodes[i])] *)
Definition type_of (lat : Lattice) (i : Z) : result Role :=
  n <- py_index (nodes lat) i ;; Ok (role n).

(** The loop [for k in edges: if k.active == True: out.append(k.node)]. *)
Definition active_nodes (edges : list Edge) : list Z :=
  map node (filter active edges).

(** ** Circuits *)

Inductive Gate : Type :=
| GId (q : Z)
| GReset (q : Z)
| GH (q : Z)
| GX (q : Z)
| GZ (q : Z)
| GCX (control target : Z)
| GMeasure (q c : Z).

(** What [to_instruction(label=...)] freezes a sub-circuit into. *)
Record Instruction : Type := mkInstruction {
  label : string;
  inst_qubits : Z;
  inst_clbits : Z;
  definition : list Gate
}.

Inductive Op : Type :=
| OGate (g : Gate)
| OBarrier
| OAddRegister (size : Z)
| OAppend (inst : Instruction) (qargs cargs : list Z).

Record Circuit : Type := mkCircuit {
  num_qubits : Z;
  num_clbits : Z;
  data : list Op
}.

Definition emit (o : Op) (qc : Circuit) : Circuit :=
  mkCircuit (num_qubits qc) (num_clbits qc) (data qc ++ [o]).

Definition emit_all (os : list Op) (qc : Circuit) : Circuit :=
  mkCircuit (num_qubits qc) (num_clbits qc) (data qc ++ os).

(** The primitive gates of a circuit, sub-circuits left out. *)
Fixpoint gates (os : list Op) : list Gate :=
  match os with
  | [] => []
  | OGate g :: os' => g :: gates os'
  | _ :: os' => gates os'
  end.

(** *** The constrained circuit *)

(** Modelled from the spec: [surfacecode/circuits.py] is missing.
    [ConstrainedQuantumCircuit(lattice, n, k)] declares qubits
    [0..n-1] and classical bits [0..k-1]; a gate that addresses a
    qubit or bit outside the declared set raises at construction. *)
Module Constrained.

Definition new (n k : Z) : Circuit := mkCircuit n k [].

Definition qubit_ok (qc : Circuit) (q : Z) : bool :=
  (0 <=? q) && (q <? num_qubits qc).

Definition clbit_ok (qc : Circuit) (c : Z) : bool :=
  (0 <=? c) && (c <? num_clbits qc).

Definition check (b : bool) : result unit :=
  if b then Ok tt else Raise CircuitError.

Definition on_qubits (mk : Z -> Gate) (qs : list Z) (qc : Circuit)
  : result Circuit :=
  _ <- check (forallb (qubit_ok qc) qs) ;;
  Ok (emit_all (map (fun q => OGate (mk q)) qs) qc).

Definition id := on_qubits GId.
Definition reset := on_qubits GReset.
Definition h := on_qubits GH.

Definition cx (c t : Z) (qc : Circuit) : result Circuit :=
  _ <- check (qubit_ok qc c && qubit_ok qc t) ;;
  Ok (emit (OGate (GCX c t)) qc).

(** [measure(qs, cs)] pairs the two lists up. *)
Definition measure (qs cs : list Z) (qc : Circuit) : result Circuit :=
  _ <- check (Nat.eqb (List.length qs) (List.length cs)) ;;
  _ <- check (forallb (qubit_ok qc) qs && forallb (clbit_ok qc) cs) ;;
  Ok (emit_all (map (fun p => OGate (GMeasure (fst p) (snd p)))
                    (combine qs cs)) qc).

Definition add_register (size : Z) (qc : Circuit) : result Circuit :=
  Ok (mkCircuit (num_qubits qc) (num_clbits qc + size)
                (data qc ++ [OAddRegister size])).

Definition append (inst : Instruction) (qargs cargs : list Z)
           (qc : Circuit) : result Circuit :=
  _ <- check (forallb (qubit_ok qc) qargs && forallb (clbit_ok qc) cargs) ;;
  Ok (emit (OAppend inst qargs cargs) qc).

Definition barrier (qc : Circuit) : result Circuit :=
  Ok (emit OBarrier qc).

Definition to_instruction (lbl : string) (qc : Circuit) : Instruction :=
  mkInstruction lbl (num_qubits qc) (num_clbits qc) (gates (data qc)).

End Constrained.

(** ** [class SurfaceCodeCycle] *)

Module SurfaceCodeCycle.

Definition _measure_z (lat : Lattice) (qZ : Z) : result Instruction :=
  edges <- dict_get (graph lat) qZ ;;
  let activeNeighbours := active_nodes edges in
  let qc := Constrained.new (len_nodes lat) 1 in
  qc <- Constrained.id [qZ] qc ;;
  qc <- Constrained.reset [qZ] qc ;;
  qc <- foldM (fun qc i => Constrained.cx i qZ qc) activeNeighbours qc ;;
  qc <- Constrained.measure [qZ] [0] qc ;;
  qc <- Constrained.id [qZ] qc ;;
  Ok (Constrained.to_instruction "measure_z" qc).

Definition _measure_x (lat : Lattice) (qX : Z) : result Instruction :=
  edges <- dict_get (graph lat) qX ;;
  let activeNeighbours := active_nodes edges in
  let qc := Constrained.new (len_nodes lat) 1 in
  qc <- Constrained.reset [qX] qc ;;
  qc <- Constrained.h [qX] qc ;;
  qc <- foldM (fun qc i => Constrained.cx qX i qc) activeNeighbours qc ;;
  qc <- Constrained.h [qX] qc ;;
  qc <- Constrained.measure [qX] [0] qc ;;
  Ok (Constrained.to_instruction "measure_x" qc).

(** The body of [for i in self.lattice.graph.keys()]. *)
Definition visit (lat : Lattice) (j : Z) (qc : Circuit) (i : Z)
  : result Circuit :=
  let num_nodes := len_nodes lat in
  ty <- type_of lat i ;;
  let classicalBitLoc := i + j * num_nodes in
  match ty with
  | ZNode =>
      inst <- _measure_z lat i ;;
      Constrained.append inst (py_range num_nodes) [classicalBitLoc] qc
  | XNode =>
      inst <- _measure_x lat i ;;
      Constrained.append inst (py_range num_nodes) [classicalBitLoc] qc
  | _ => Ok qc
  end.

(** The body of [for j in range(num_cycles)]. *)
Definition round (lat : Lattice) (qc : Circuit) (j : Z) : result Circuit :=
  qc <- Constrained.add_register (len_nodes lat) qc ;;
  qc <- foldM (visit lat j) (keys (graph lat)) qc ;;
  Constrained.barrier qc.

Definition _circuit (lat : Lattice) (num_cycles : Z) : result Circuit :=
  let num_nodes := len_nodes lat in
  let qc := Constrained.new num_nodes 0 in
  foldM (round lat) (py_range num_cycles) qc.

End SurfaceCodeCycle.

(** ** [class HeavyHexCode] *)

Module HeavyHexCode.

Definition _measure_x_2 (lat : Lattice) (qX : Z) : result Instruction :=
  ty <- type_of lat qX ;;
  _ <- assert (Role_eqb ty AncillaNode) ;;
  edges <- dict_get (graph lat) qX ;;
  let dataNeighbours := active_nodes edges in
  let qc := Constrained.new (len_nodes lat) 1 in
  qc <- Constrained.reset [qX] qc ;;
  d1 <- py_index dataNeighbours 1 ;;
  qc <- Constrained.cx qX d1 qc ;;
  d0 <- py_index dataNeighbours 0 ;;
  qc <- Constrained.cx qX d0 qc ;;
  qc <- Constrained.measure [qX] [0] qc ;;
  Ok (Constrained.to_instruction "measure_x_2" qc).

(** The inner loop of [_measure_x_4]: the active neighbours of a flag
    other than the ancilla itself, each asserted to be a data node. *)
Definition flag_side (lat : Lattice) (qX : Z) (acc : list Z) (k : Edge)
  : result (list Z) :=
  if active k && negb (node k =? qX) then
    ty <- type_of lat (node k) ;;
    _ <- assert (Role_eqb ty DataNode) ;;
    Ok (acc ++ [node k])
  else Ok acc.

Definition _measure_x_4 (lat : Lattice) (qX : Z) : result Instruction :=
  ty <- type_of lat qX ;;
  _ <- assert (Role_eqb ty AncillaNode) ;;
  edges <- dict_get (graph lat) qX ;;
  let flagNeighbours := active_nodes edges in
  dataNeighbours <-
    foldM (fun acc flag =>
             fedges <- dict_get (graph lat) flag ;;
             foldM (flag_side lat qX) fedges acc)
          flagNeighbours [] ;;
  let qc := Constrained.new (len_nodes lat) 3 in
  qc <- Constrained.reset [qX] qc ;;
  qc <- Constrained.h [qX] qc ;;
  qc <- Constrained.reset flagNeighbours qc ;;
  f1 <- py_index flagNeighbours 1 ;;
  qc <- Constrained.cx qX f1 qc ;;
  f0 <- py_index flagNeighbours 0 ;;
  qc <- Constrained.cx qX f0 qc ;;
  d2 <- py_index dataNeighbours 2 ;;
  qc <- Constrained.cx f1 d2 qc ;;
  d1 <- py_index dataNeighbours 1 ;;
  qc <- Constrained.cx f0 d1 qc ;;
  d3 <- py_index dataNeighbours 3 ;;
  qc <- Constrained.cx f1 d3 qc ;;
  d0 <- py_index dataNeighbours 0 ;;
  qc <- Constrained.cx f0 d0 qc ;;
  qc <- Constrained.cx qX f1 qc ;;
  qc <- Constrained.cx qX f0 qc ;;
  qc <- Constrained.measure flagNeighbours [0; 1] qc ;;
  qc <- Constrained.h [qX] qc ;;
  qc <- Constrained.measure [qX] [2] qc ;;
  Ok (Constrained.to_instruction "measure_x_4" qc).

(** The loop of [_measure_z]: the active neighbours that are not
    ancillas, each asserted to be a data node. *)
Definition data_side (lat : Lattice) (acc : list Z) (k : Edge)
  : result (list Z) :=
  if active k then
    ty <- type_of lat (node k) ;;
    if negb (Role_eqb ty AncillaNode) then
      _ <- assert (Role_eqb ty DataNode) ;;
      Ok (acc ++ [node k])
    else Ok acc
  else Ok acc.

Definition _measure_z (lat : Lattice) (qZ : Z) : result Instruction :=
  ty <- type_of lat qZ ;;
  _ <- assert (Role_eqb ty FlagNode) ;;
  edges <- dict_get (graph lat) qZ ;;
  dataNeighbours <- foldM (data_side lat) edges [] ;;
  let qc := Constrained.new (len_nodes lat) 1 in
  qc <- Constrained.reset [qZ] qc ;;
  d1 <- py_index dataNeighbours 1 ;;
  qc <- Constrained.cx d1 qZ qc ;;
  d0 <- py_index dataNeighbours 0 ;;
  qc <- Constrained.cx d0 qZ qc ;;
  qc <- Constrained.measure [qZ] [0] qc ;;
  Ok (Constrained.to_instruction "measure_z" qc).

(** The branch [if type(node) == AncillaNode] of the node loop. *)
Definition visit_ancilla (lat : Lattice) (j : Z) (qc : Circuit) (i : Z)
  : result Circuit :=
  let num_nodes := len_nodes lat in
  let classicalBitLoc := i + j * num_nodes in
  edges <- dict_get (graph lat) i ;;
  e0 <- py_index edges 0 ;;
  let neighbour1 := node e0 in
  e1 <- py_index edges 1 ;;
  let neighbour2 := node e1 in
  t1 <- type_of lat neighbour1 ;;
  qc <- (if Role_eqb t1 DataNode then
           t2 <- type_of lat neighbour2 ;;
           _ <- assert (Role_eqb t2 DataNode) ;;
           inst <- _measure_x_2 lat i ;;
           Constrained.append inst (py_range num_nodes) [classicalBitLoc] qc
         else Ok qc) ;;
  t1 <- type_of lat neighbour1 ;;
  if Role_eqb t1 FlagNode then
    let classicalBit1 := neighbour1 + j * num_nodes in
    let classicalBit2 := neighbour2 + j * num_nodes in
    inst <- _measure_x_4 lat i ;;
    Constrained.append inst (py_range num_nodes)
                       [classicalBit1; classicalBit2; classicalBitLoc] qc
  else Ok qc.

(** The body of [for i in self.lattice.graph.keys()]. *)
Definition visit (lat : Lattice) (j : Z) (qc : Circuit) (i : Z)
  : result Circuit :=
  let num_nodes := len_nodes lat in
  ty <- type_of lat i ;;
  let classicalBitLoc := i + j * num_nodes in
  qc <- (if Role_eqb ty FlagNode then
           inst <- _measure_z lat i ;;
           Constrained.append inst (py_range num_nodes) [classicalBitLoc] qc
         else Ok qc) ;;
  if Role_eqb ty AncillaNode then visit_ancilla lat j qc i else Ok qc.

(** The body of [for j in range(num_cycles)]. *)
Definition round (lat : Lattice) (qc : Circuit) (j : Z) : result Circuit :=
  qc <- Constrained.add_register (len_nodes lat) qc ;;
  qc <- foldM (visit lat j) (keys (graph lat)) qc ;;
  Constrained.barrier qc.

Definition _circuit (lat : Lattice) (num_cycles : Z) : result Circuit :=
  let num_nodes := len_nodes lat in
  let qc := Constrained.new num_nodes 0 in
  foldM (round lat) (py_range num_cycles) qc.

End HeavyHexCode.

(** ** Mutating the lattice *)

Fixpoint replace_at {A} (k : nat) (a : A) (l : list A) : list A :=
  match l, k with
  | [], _ => []
  | _ :: l', O => a :: l'
  | x :: l', S k' => x :: replace_at k' a l'
  end.

(** [l[i] = a] on a Python list. *)
Definition py_store {A} (l : list A) (i : Z) (a : A) : result (list A) :=
  let n := Z.of_nat (List.length l) in
  let j := if i <? 0 then i + n else i in
  if (0 <=? j) && (j <? n) then Ok (replace_at (Z.to_nat j) a l)
  else Raise IndexError.

(** The edge records that cache node [index] take the new flag. *)
Definition recache (index : Z) (switch : bool) (k : Edge) : Edge :=
  if node k =? index then mkEdge (node k) switch else k.

(** Modelled from the spec: [Lattice._switch_node] is in the missing
    [surfacecode/lattice.py].  It sets [nodes[index].active] and
    propagates the new flag to every edge record of the graph that
    caches this node's activity. *)
Definition _switch_node (lat : Lattice) (index : Z) (switch : bool)
  : result Lattice :=
  n <- py_index (nodes lat) index ;;
  nodes' <- py_store (nodes lat) index (mkNode (role n) switch) ;;
  let graph' :=
    map (fun kv => (fst kv, map (recache index switch) (snd kv)))
        (graph lat) in
  Ok (mkLattice nodes' graph' (width lat)).

(** ** The plain circuit of the outside library *)

(** The code of [logical_qubit.py] builds plain [QuantumCircuit]s and
    addresses qubits by integer.  The library looks an integer up in
    its list of qubits as Python indexes a list: a negative index
    counts from the end, and an index outside the list is a
    [CircuitError]; so is a gate that is given the same qubit
    twice.  The log keeps the qubits the gates end up on. *)
Module QuantumCircuit.

Definition new (n k : Z) : Circuit := mkCircuit n k [].

(** The qubit an integer index stands for. *)
Definition qubit (qc : Circuit) (i : Z) : result Z :=
  let n := num_qubits qc in
  if (0 <=? i) && (i <? n) then Ok i
  else if (- n <=? i) && (i <? 0) then Ok (i + n)
  else Raise CircuitError.

Definition on_qubit (mk : Z -> Gate) (q : Z) (qc : Circuit)
  : result Circuit :=
  q' <- qubit qc q ;;
  Ok (emit (OGate (mk q')) qc).

Definition h := on_qubit GH.
Definition x := on_qubit GX.
Definition z := on_qubit GZ.

Definition cx (c t : Z) (qc : Circuit) : result Circuit :=
  c' <- qubit qc c ;;
  t' <- qubit qc t ;;
  if c' =? t' then Raise CircuitError
  else Ok (emit (OGate (GCX c' t')) qc).

Definition measure (q c : Z) (qc : Circuit) : result Circuit :=
  q' <- qubit qc q ;;
  Ok (emit (OGate (GMeasure q' c)) qc).

Definition barrier (qc : Circuit) : Circuit := emit OBarrier qc.

(** [qc.compose(other)] with the default [inplace=False]: the result
    is a new circuit and [qc] itself is left as it was. *)
Definition compose (qc other : Circuit) : Circuit :=
  mkCircuit (num_qubits qc) (num_clbits qc) (data qc ++ data other).

End QuantumCircuit.

(** ** State and exceptions together *)

(** A method that may mutate the shared lattice and may raise: the
    lattice comes back in either case, as mutated so far. *)
Definition M (A : Type) : Type := Lattice -> result A * Lattice.

Definition ret {A} (a : A) : M A := fun lat => (Ok a, lat).

Definition mbind {A B} (m : M A) (k : A -> M B) : M B :=
  fun lat =>
    match m lat with
    | (Ok a, lat') => k a lat'
    | (Raise e, lat') => (Raise e, lat')
    end.

Notation "x <~ m ;; k" := (mbind m (fun x => k))
  (at level 61, m at next level, right associativity).

(** A call that reads the lattice and may raise. *)
Definition reading {A} (f : Lattice -> result A) : M A :=
  fun lat => (f lat, lat).

(** [self.lattice._switch_node(index, switch)] *)
Definition switch_node (index : Z) (switch : bool) : M unit :=
  fun lat =>
    match _switch_node lat index switch with
    | Ok lat' => (Ok tt, lat')
    | Raise e => (Raise e, lat)
    end.

(** [for x in l: body(x)] *)
Fixpoint for_each {B} (body : B -> M unit) (l : list B) : M unit :=
  match l with
  | [] => ret tt
  | x :: xs => _ <~ body x ;; for_each body xs
  end.

(** ** [class LQubit] *)

Module LQubit.

(** [type] is [true] for a Z-cut qubit and [false] for an X-cut one.
    The lattice the qubit refers to is the shared one. *)
Record LQubit : Type := mkLQubit {
  type : bool;
  m_node : Z;
  a_node : Z
}.

(** [route[-1]] *)
Definition back (route : list (Z * Z)) : Z * Z := last route (0, 0).

(** [while route[-1][0] != c_end[0]: ...] *)
Equations? walk_x (c_end : Z * Z) (route : list (Z * Z)) : list (Z * Z)
  by wf (Z.abs_nat (fst (back route) - fst c_end)) lt :=
  walk_x c_end route with Z.eq_dec (fst (back route)) (fst c_end) := {
    | left _ => route
    | right _ with Z_gt_dec (fst (back route)) (fst c_end) := {
      | left _ =>
          walk_x c_end
                 (route ++ [(fst (back route) - 1, snd (back route))])
      | right _ =>
          walk_x c_end
                 (route ++ [(fst (back route) + 1, snd (back route))]) } }.
Proof.
  all: unfold back in *; rewrite last_last; simpl; lia.
Qed.

(** [while route[-1][1] != c_end[1]: ...] *)
Equations? walk_y (c_end : Z * Z) (route : list (Z * Z)) : list (Z * Z)
  by wf (Z.abs_nat (snd (back route) - snd c_end)) lt :=
  walk_y c_end route with Z.eq_dec (snd (back route)) (snd c_end) := {
    | left _ => route
    | right _ with Z_gt_dec (snd (back route)) (snd c_end) := {
      | left _ =>
          walk_y c_end
                 (route ++ [(fst (back route), snd (back route) - 1)])
      | right _ =>
          walk_y c_end
                 (route ++ [(fst (back route), snd (back route) + 1)]) } }.
Proof.
  all: unfold back in *; rewrite last_last; simpl; lia.
Qed.

(** [%] and [//] raise on a zero divisor; otherwise they are the
    floor division of [Z]. *)
Definition route (lat : Lattice) (start end_ : Z) : result (list Z) :=
  let width := width lat in
  if width =? 0 then Raise ZeroDivisionError
  else
    let c_start := (start mod width, start / width) in
    let c_end := (end_ mod width, end_ / width) in
    let route := [c_start] in
    let route := walk_x c_end route in
    let route := walk_y c_end route in
    Ok (map (fun x => fst x + width * snd x) route).

(** The two switches come first: a gate that raises leaves them
    done. *)
Definition initialize (self : LQubit) : M Circuit :=
  fun lat =>
    let num_nodes := len_nodes lat in
    let c := 0 in
    let qc := QuantumCircuit.new num_nodes 1 in
    (_ <~ switch_node (m_node self) false ;;
     _ <~ switch_node (a_node self) false ;;
     reading (fun _ =>
       qc <- (if type self then
                qc <- QuantumCircuit.cx (m_node self + 1) (m_node self) qc ;;
                qc <- QuantumCircuit.cx (m_node self - 1) (m_node self) qc ;;
                qc <- QuantumCircuit.cx (m_node self + width lat)
                                        (m_node self) qc ;;
                QuantumCircuit.cx (m_node self - width lat) (m_node self) qc
              else
                qc <- QuantumCircuit.h (m_node self) qc ;;
                qc <- QuantumCircuit.cx (m_node self) (m_node self + 1) qc ;;
                qc <- QuantumCircuit.cx (m_node self) (m_node self - 1) qc ;;
                qc <- QuantumCircuit.cx (m_node self)
                                        (m_node self + width lat) qc ;;
                qc <- QuantumCircuit.cx (m_node self)
                                        (m_node self - width lat) qc ;;
                QuantumCircuit.h (m_node self) qc) ;;
       qc <- QuantumCircuit.measure (m_node self) c qc ;;
       Ok (QuantumCircuit.barrier qc))) lat.

(** The gates come first: when one raises, nothing is switched. *)
Definition measure (self : LQubit) : M Circuit :=
  fun lat =>
    let num_nodes := len_nodes lat in
    let c := 0 in
    let qc := QuantumCircuit.new num_nodes 1 in
    (qc <~ reading (fun _ =>
       qc <- (if type self then
                qc <- QuantumCircuit.cx (m_node self + 1) (m_node self) qc ;;
                qc <- QuantumCircuit.cx (m_node self - 1) (m_node self) qc ;;
                qc <- QuantumCircuit.cx (m_node self + width lat)
                                        (m_node self) qc ;;
                QuantumCircuit.cx (m_node self - width lat) (m_node self) qc
              else
                qc <- QuantumCircuit.h (m_node self) qc ;;
                qc <- QuantumCircuit.cx (m_node self) (m_node self + 1) qc ;;
                qc <- QuantumCircuit.cx (m_node self) (m_node self - 1) qc ;;
                qc <- QuantumCircuit.cx (m_node self)
                                        (m_node self + width lat) qc ;;
                qc <- QuantumCircuit.cx (m_node self)
                                        (m_node self - width lat) qc ;;
                QuantumCircuit.h (m_node self) qc) ;;
       QuantumCircuit.measure (m_node self) c qc) ;;
     _ <~ switch_node (m_node self) true ;;
     _ <~ switch_node (a_node self) true ;;
     ret (QuantumCircuit.barrier qc)) lat.

Definition circle_gate (self : LQubit) (lat : Lattice) : result Circuit :=
  let num_nodes := len_nodes lat in
  let qc := QuantumCircuit.new num_nodes 0 in
  qc <- (if type self then
           qc <- QuantumCircuit.z (m_node self + 1) qc ;;
           qc <- QuantumCircuit.z (m_node self - 1) qc ;;
           qc <- QuantumCircuit.z (m_node self + width lat) qc ;;
           QuantumCircuit.z (m_node self - width lat) qc
         else
           qc <- QuantumCircuit.x (m_node self + 1) qc ;;
           qc <- QuantumCircuit.x (m_node self - 1) qc ;;
           qc <- QuantumCircuit.x (m_node self + width lat) qc ;;
           QuantumCircuit.x (m_node self - width lat) qc) ;;
  Ok (QuantumCircuit.barrier qc).

(** [route[1::2]] *)
Fixpoint every_other {A} (l : list A) : list A :=
  match l with
  | _ :: x :: l' => x :: every_other l'
  | _ => []
  end.

Definition line_gate (self : LQubit) (lat : Lattice) : result Circuit :=
  let num_nodes := len_nodes lat in
  let qc := QuantumCircuit.new num_nodes 0 in
  route <- route lat (m_node self) (a_node self) ;;
  let data_qubits := every_other route in
  qc <- foldM (fun qc i => if type self then QuantumCircuit.x i qc
                           else QuantumCircuit.z i qc)
              data_qubits qc ;;
  Ok (QuantumCircuit.barrier qc).

(** The methods [X] and [Z]; the name [Z] is taken by the integers. *)
Definition logical_X (self : LQubit) (lat : Lattice) : result Circuit :=
  if type self then line_gate self lat else circle_gate self lat.

Definition logical_Z (self : LQubit) (lat : Lattice) : result Circuit :=
  if type self then circle_gate self lat else line_gate self lat.

(** [braidZX] is a signature without a body in the source; there is
    nothing of it to embed. *)

(** [route.pop()]: drop the last element; an empty list raises. *)
Definition pop {A} (l : list A) : result (list A) :=
  match l with
  | [] => Raise IndexError
  | _ => Ok (removelast l)
  end.

(** [cycle] is [cycle._circuit] read against the current state of the
    shared lattice.  The value of each [qc.compose(...)] is computed
    and dropped, as the two expression statements do. *)
Definition move_cell (self : LQubit)
           (cycle : Lattice -> Z -> result Circuit) (start end_ : Z)
  : M Circuit :=
  fun lat =>
    (route <~ reading (fun lat => route lat start end_) ;;
     num_nodes <~ reading (fun lat => Ok (len_nodes lat)) ;;
     let qc := QuantumCircuit.new num_nodes (3 * (num_nodes / 2)) in
     _ <~ for_each (fun i => switch_node i false) route ;;
     round1 <~ reading (fun lat => cycle lat 1) ;;
     let _ := QuantumCircuit.compose qc round1 in
     route <~ reading (fun _ => pop route) ;;
     _ <~ for_each (fun i => switch_node i true) route ;;
     round2 <~ reading (fun lat => cycle lat 1) ;;
     let _ := QuantumCircuit.compose qc round2 in
     ret qc) lat.

End LQubit.

(** ** What the spec says a route is *)

(** The positions met going from [a] to [b] one step at a time, both
    ends included. *)
Definition run (a b : Z) : list Z :=
  if a <=? b
  then map (fun k => a + Z.of_nat k) (seq 0 (S (Z.to_nat (b - a))))
  else map (fun k => a - Z.of_nat k) (seq 0 (S (Z.to_nat (a - b)))).

(** The L-shaped path of the spec in grid coordinates: along the row
    of the start to the column of the end, then along that column to
    the row of the end. *)
Definition l_path (c_start c_end : Z * Z) : list (Z * Z) :=
  map (fun x => (x, snd c_start)) (run (fst c_start) (fst c_end))
  ++ map (fun y => (fst c_end, y)) (tl (run (snd c_start) (snd c_end))).

(** [index = x + width * y] *)
Definition index_of (width : Z) (c : Z * Z) : Z := fst c + width * snd c.

Definition coords (width i : Z) : Z * Z := (i mod width, i / width).

Definition spec_route (width start end_ : Z) : list Z :=
  map (index_of width) (l_path (coords width start) (coords width end_)).

(** [f] applied to the value a call returns. *)
Definition result_map {A B} (f : A -> B) (r : result A) : result B :=
  match r with
  | Ok a => Ok (f a)
  | Raise e => Raise e
  end.

(** ** Lattices to run the code on *)

Definition on_edges (ns : list Z) : list Edge :=
  map (fun n => mkEdge n true) ns.

(** A 3 by 3 square lattice, all nodes active, Z and X syndrome nodes
    alternating with data nodes on the checkerboard:
<<
      0 1 2        D Z D
      3 4 5        X D X
      6 7 8        D Z D
>> *)
Definition square3 : Lattice :=
  mkLattice
    (map (fun r => mkNode r true)
         [DataNode; ZNode; DataNode;
          XNode; DataNode; XNode;
          DataNode; ZNode; DataNode])
    [(0, on_edges [1; 3]); (1, on_edges [0; 2; 4]); (2, on_edges [1; 5]);
     (3, on_edges [0; 4; 6]); (4, on_edges [1; 3; 5; 7]);
     (5, on_edges [2; 4; 8]);
     (6, on_edges [3; 7]); (7, on_edges [6; 8; 4]); (8, on_edges [5; 7])]
    3.

(** ** What the spec says a surface-code round is *)

Definition in_range (n q : Z) : Prop := 0 <= q < n.

(** The lattice invariants of the spec: every index [0..num_nodes-1]
    is a key of the graph exactly once, and every edge record points
    at a node of the lattice. *)
Definition lattice_ok (lat : Lattice) : Prop :=
  NoDup (keys (graph lat))
  /\ (forall i, In i (keys (graph lat)) <-> in_range (len_nodes lat) i)
  /\ Forall (fun kv => Forall (fun k => in_range (len_nodes lat) (node k))
                             (snd kv))
            (graph lat).

(** The gadget a node gets: one for a Z node, one for an X node, none
    for any other role. *)
Definition spec_gadget (lat : Lattice) (i : Z) : option Instruction :=
  match type_of lat i, dict_get (graph lat) i with
  | Ok ZNode, Ok edges =>
      Some (mkInstruction "measure_z" (len_nodes lat) 1
              ([GId i; GReset i]
                 ++ map (fun k => GCX k i) (active_nodes edges)
                 ++ [GMeasure i 0; GId i]))
  | Ok XNode, Ok edges =>
      Some (mkInstruction "measure_x" (len_nodes lat) 1
              ([GReset i; GH i]
                 ++ map (fun k => GCX i k) (active_nodes edges)
                 ++ [GH i; GMeasure i 0]))
  | _, _ => None
  end.

(** What node [i] contributes to round [j]: its gadget on all the
    qubits, measured into classical bit [i + j * num_nodes]. *)
Definition spec_node (lat : Lattice) (j i : Z) : list Op :=
  match spec_gadget lat i with
  | Some inst =>
      [OAppend inst (py_range (len_nodes lat)) [i + j * len_nodes lat]]
  | None => []
  end.

(** Round [j]: one classical register of width [num_nodes], the
    contribution of each node in lattice order, one barrier. *)
Definition spec_round (lat : Lattice) (j : Z) : list Op :=
  [OAddRegister (len_nodes lat)]
    ++ flat_map (spec_node lat j) (keys (graph lat))
    ++ [OBarrier].

(** Does the operation write classical bit [c]? *)
Definition measures_into (c : Z) (o : Op) : bool :=
  match o with
  | OAppend _ _ cargs => existsb (Z.eqb c) cargs
  | OGate (GMeasure _ c') => c =? c'
  | _ => false
  end.

Definition is_register (o : Op) : bool :=
  match o with OAddRegister _ => true | _ => false end.

Definition is_barrier (o : Op) : bool :=
  match o with OBarrier => true | _ => false end.

Definition is_append (o : Op) : bool :=
  match o with OAppend _ _ _ => true | _ => false end.

(** A node that gets a gadget: a Z node or an X node. *)
Definition is_syndrome (n : Node) : bool :=
  match role n with
  | ZNode | XNode => true
  | _ => false
  end.

(** The neighbours whose own [active] flag is set, as opposed to the
    copy of it the edge record carries. *)
Definition live_nodes (lat : Lattice) (edges : list Edge) : list Z :=
  map node
      (filter (fun k => match py_index (nodes lat) (node k) with
                        | Ok n => node_active n
                        | Raise _ => false
                        end) edges).

(** Every edge record carries the current flag of the node it points
    at. *)
Definition coherent (lat : Lattice) (edges : list Edge) : Prop :=
  Forall (fun k => exists n, py_index (nodes lat) (node k) = Ok n
                             /\ node_active n = active k) edges.

(** [self.lattice.nodes[i].active] *)
Definition activity (lat : Lattice) (i : Z) : result bool :=
  n <- py_index (nodes lat) i ;; Ok (node_active n).

(** An edge record after nodes [m] and [a] were switched to [b]. *)
Definition recache2 (m a : Z) (b : bool) (k : Edge) : Edge :=
  if (node k =? m) || (node k =? a) then mkEdge (node k) b else k.

(** Lattice [lat'] is [lat] with nodes [m] and [a] switched to [b]
    and nothing else touched: same size and width, same roles, the
    activity of every other node as it was, and in the graph only the
    edge records that cache [m] or [a] updated. *)
Definition switched (m a : Z) (b : bool) (lat lat' : Lattice) : Prop :=
  len_nodes lat' = len_nodes lat
  /\ width lat' = width lat
  /\ graph lat' =
     map (fun kv => (fst kv, map (recache2 m a b) (snd kv))) (graph lat)
  /\ (forall i, in_range (len_nodes lat) i -> type_of lat' i = type_of lat i)
  /\ (forall i, in_range (len_nodes lat) i ->
                activity lat' i =
                if (i =? m) || (i =? a) then Ok b else activity lat i).

(** A [w] by [h] grid to run the logical-qubit code on: data nodes
    where [x + y] is even, syndrome nodes elsewhere (Z on even rows,
    X on odd rows), every node linked to its grid neighbours. *)
Definition grid_role (x y : Z) : Role :=
  if Z.even (x + y) then DataNode
  else if Z.even y then ZNode else XNode.

Definition grid_neighbours (w h i : Z) : list Z :=
  let x := i mod w in
  let y := i / w in
  (if 0 <? y then [i - w] else [])
    ++ (if 0 <? x then [i - 1] else [])
    ++ (if x <? w - 1 then [i + 1] else [])
    ++ (if y <? h - 1 then [i + w] else []).

Definition grid (w h : Z) : Lattice :=
  mkLattice
    (map (fun i => mkNode (grid_role (i mod w) (i / w)) true)
         (py_range (w * h)))
    (map (fun i => (i, on_edges (grid_neighbours w h i)))
         (py_range (w * h)))
    w.

Definition square5 : Lattice := grid 5 5.

(** A Z-cut qubit of [square5]: measurement node 11 at column 1, row
    2, ancilla node 13 at column 3, row 2. *)
Definition zcut5 : LQubit.LQubit := LQubit.mkLQubit true 11 13.

(** ** The measurement node and its four neighbours *)

(** The operands the stabilizer of a logical qubit is built on, each
    with the grid offset it stands for. *)
Definition addressed (m w : Z) : list (Z * (Z * Z)) :=
  [(m + 1, (1, 0)); (m - 1, (-1, 0)); (m + w, (0, 1)); (m - w, (0, -1))].

Definition cross (m w : Z) : list Z := map fst (addressed m w).

(** [i] is a node of the lattice and sits at offset [d] from [m] on
    the grid. *)
Definition neighbour_at (lat : Lattice) (m : Z) (d : Z * Z) (i : Z) : Prop :=
  in_range (len_nodes lat) i
  /\ coords (width lat) i =
     (fst (coords (width lat) m) + fst d, snd (coords (width lat) m) + snd d).

(** The measurement node is strictly inside the grid. *)
Definition interior (lat : Lattice) (m : Z) : Prop :=
  m mod width lat <> 0
  /\ m mod width lat <> width lat - 1
  /\ in_range (len_nodes lat) (m - width lat)
  /\ in_range (len_nodes lat) (m + width lat).

(** The gates of the stabilizer circuit of [initialize] and
    [measure]. *)
Definition stabilizer_gates (self : LQubit.LQubit) (w : Z) : list Gate :=
  let m := LQubit.m_node self in
  if LQubit.type self
  then map (fun n => GCX n m) (cross m w) ++ [GMeasure m 0]
  else [GH m] ++ map (fun n => GCX m n) (cross m w) ++ [GH m; GMeasure m 0].

(** ** Heavy-hex lattices and what the spec says of the gadgets *)

(** The diamond around an ancilla, all nodes active:
<<
      D0(0)        D2(2)
        |            |
      F0(4) - A(6) - F1(5)
        |            |
      D1(1)        D3(3)
>> *)
Definition diamond : Lattice :=
  mkLattice
    (map (fun r => mkNode r true)
         [DataNode; DataNode; DataNode; DataNode;
          FlagNode; FlagNode; AncillaNode])
    [(0, on_edges [4]); (1, on_edges [4]);
     (2, on_edges [5]); (3, on_edges [5]);
     (4, on_edges [0; 6; 1]); (5, on_edges [2; 6; 3]);
     (6, on_edges [4; 5])]
    0.

(** An ancilla between two data nodes: D(0) - A(1) - D(2). *)
Definition dumbbell : Lattice :=
  mkLattice
    (map (fun r => mkNode r true) [DataNode; AncillaNode; DataNode])
    [(0, on_edges [1]); (1, on_edges [0; 2]); (2, on_edges [1])]
    0.

(** An ancilla whose two neighbours are neither data nodes nor flags:
    Z(0) - A(1) - Z(2). *)
Definition stray : Lattice :=
  mkLattice
    (map (fun r => mkNode r true) [ZNode; AncillaNode; ZNode])
    [(0, on_edges [1]); (1, on_edges [0; 2]); (2, on_edges [1])]
    0.

Definition has_role (lat : Lattice) (r : Role) (i : Z) : bool :=
  match type_of lat i with
  | Ok r' => Role_eqb r' r
  | Raise _ => false
  end.

(** The active data neighbours of a flag, in the order they are met. *)
Definition data_neighbours (lat : Lattice) (edges : list Edge) : list Z :=
  map node (filter (fun k => active k && has_role lat DataNode (node k)) edges).

(** The active neighbours of a flag other than the ancilla [qX]. *)
Definition far_side (qX : Z) (edges : list Edge) : list Z :=
  map node (filter (fun k => active k && negb (node k =? qX)) edges).

(** The gates of [measure_x_4] in the order the spec gives them:
    flag 1 to its first data neighbour, flag 0 to its first, flag 1
    to its second, flag 0 to its second. *)
Definition claimed_measure_x_4 (qX f0 f1 d0 d1 d2 d3 : Z) : list Gate :=
  [GReset qX; GH qX; GReset f0; GReset f1;
   GCX qX f1; GCX qX f0;
   GCX f1 d2; GCX f0 d0; GCX f1 d3; GCX f0 d1;
   GCX qX f1; GCX qX f0;
   GMeasure f0 0; GMeasure f1 1; GH qX; GMeasure qX 2].

(** The same gates in the order the code gives them: flag 1 to its
    first data neighbour, flag 0 to its second, flag 1 to its second,
    flag 0 to its first. *)
Definition built_measure_x_4 (qX f0 f1 d0 d1 d2 d3 : Z) : list Gate :=
  [GReset qX; GH qX; GReset f0; GReset f1;
   GCX qX f1; GCX qX f0;
   GCX f1 d2; GCX f0 d1; GCX f1 d3; GCX f0 d0;
   GCX qX f1; GCX qX f0;
   GMeasure f0 0; GMeasure f1 1; GH qX; GMeasure qX 2].

(** Lattice [lat'] is [lat] with the nodes of [on] set active, the
    nodes of [off] that are not in [on] set inactive, and the size,
    the width, the roles and the activity of every other node as
    they were. *)
Definition activity_set (on off : list Z) (lat lat' : Lattice) : Prop :=
  len_nodes lat' = len_nodes lat
  /\ width lat' = width lat
  /\ (forall i, in_range (len_nodes lat) i -> type_of lat' i = type_of lat i)
  /\ (forall i, in_range (len_nodes lat) i ->
                activity lat' i =
                if existsb (Z.eqb i) on then Ok true
                else if existsb (Z.eqb i) off then Ok false
                     else activity lat i).

(** A flag with a Z node among its neighbours:
    D(0) - F(1) - D(3), and Z(2) hanging off the flag. *)
Definition crooked : Lattice :=
  mkLattice
    (map (fun r => mkNode r true) [DataNode; FlagNode; ZNode; DataNode])
    [(0, on_edges [1]); (1, on_edges [0; 2; 3]);
     (2, on_edges [1]); (3, on_edges [1])]
    0.

(** The diamond after data node 1 was switched off. *)
Definition dented : Lattice :=
  match _switch_node diamond 1 false with
  | Ok lat => lat
  | Raise _ => diamond
  end.

(** ** The library's view of the stabilizer circuit *)

(** An index the library accepts on [n] qubits, and the qubit it
    stands for. *)
Definition acceptable (n i : Z) : bool := (- n <=? i) && (i <? n).

Definition wrap (n i : Z) : Z := if i <? 0 then i + n else i.

(** The block of gates that [initialize] and [measure] both spell
    out, with the measurement that follows it. *)
Definition projection (self : LQubit.LQubit) (w : Z) (qc : Circuit)
  : result Circuit :=
  let m := LQubit.m_node self in
  qc <- (if LQubit.type self then
           qc <- QuantumCircuit.cx (m + 1) m qc ;;
           qc <- QuantumCircuit.cx (m - 1) m qc ;;
           qc <- QuantumCircuit.cx (m + w) m qc ;;
           QuantumCircuit.cx (m - w) m qc
         else
           qc <- QuantumCircuit.h m qc ;;
           qc <- QuantumCircuit.cx m (m + 1) qc ;;
           qc <- QuantumCircuit.cx m (m - 1) qc ;;
           qc <- QuantumCircuit.cx m (m + w) qc ;;
           qc <- QuantumCircuit.cx m (m - w) qc ;;
           QuantumCircuit.h m qc) ;;
  QuantumCircuit.measure m 0 qc.

(** What that block comes to on [n] qubits: the library raises when
    it does not accept one of the five indices or when a neighbour
    index stands for the measurement qubit itself; otherwise the
    gates go to the qubits the indices stand for. *)
Definition stabilizer_outcome (self : LQubit.LQubit) (n w : Z)
  : result (list Gate) :=
  let m := LQubit.m_node self in
  if forallb (acceptable n) (m :: cross m w)
     && forallb (fun i => negb (wrap n i =? wrap n m)) (cross m w)
  then Ok (if LQubit.type self
           then map (fun i => GCX (wrap n i) (wrap n m)) (cross m w)
                    ++ [GMeasure (wrap n m) 0]
           else [GH (wrap n m)]
                  ++ map (fun i => GCX (wrap n m) (wrap n i)) (cross m w)
                  ++ [GH (wrap n m); GMeasure (wrap n m) 0])
  else Raise CircuitError.

(** The same for [circle_gate]. *)
Definition circle_outcome (self : LQubit.LQubit) (n w : Z)
  : result (list Gate) :=
  let m := LQubit.m_node self in
  if forallb (acceptable n) (cross m w)
  then Ok (map (fun i => (if LQubit.type self then GZ else GX) (wrap n i))
               (cross m w))
  else Raise CircuitError.

(** The gates of a circuit a call returns. *)
Definition gates_of (r : result Circuit) : result (list Gate) :=
  result_map (fun qc => gates (data qc)) r.

(** A Z-cut qubit on the bottom row of [square5]: measurement node
    21 at column 1, row 4, ancilla node 23 at column 3, row 4, both Z
    nodes; and [square5] as its [initialize()] leaves it. *)
Definition edge5 : LQubit.LQubit := LQubit.mkLQubit true 21 23.

Definition square5_off : Lattice := snd (LQubit.initialize edge5 square5).

(** [square5] as the [initialize()] of [zcut5] leaves it. *)
Definition square5_cut : Lattice := snd (LQubit.initialize zcut5 square5).

(** * Proofs *)

(** ** Routes *)

Lemma run_refl a : run a a = [a].
Proof.
  unfold run. rewrite Z.leb_refl, Z.sub_diag. cbn. f_equal. apply Z.add_0_r.
Qed.

Lemma run_up a b : a < b -> run a b = a :: run (a + 1) b.
Proof.
  intros Hab. unfold run.
  replace (a <=? b) with true by (symmetry; apply Z.leb_le; lia).
  replace (a + 1 <=? b) with true by (symmetry; apply Z.leb_le; lia).
  replace (Z.to_nat (b - a)) with (S (Z.to_nat (b - (a + 1)))) by lia.
  set (m := Z.to_nat (b - (a + 1))).
  change (seq 0 (S (S m))) with (0%nat :: seq 1 (S m)).
  rewrite <- seq_shift. cbn [map]. rewrite map_map.
  f_equal; [lia|]. apply map_ext. intros k. lia.
Qed.

Lemma run_down a b : b < a -> run a b = a :: run (a - 1) b.
Proof.
  intros Hab. unfold run.
  replace (a <=? b) with false by (symmetry; apply Z.leb_gt; lia).
  destruct (Z.leb_spec (a - 1) b) as [Hle|Hgt].
  - assert (b = a - 1) by lia. subst b.
    replace (Z.to_nat (a - (a - 1))) with 1%nat by lia.
    replace (Z.to_nat (a - 1 - (a - 1))) with 0%nat by lia.
    cbn [map seq]. f_equal; [lia | f_equal; lia].
  - replace (Z.to_nat (a - b)) with (S (Z.to_nat (a - 1 - b))) by lia.
    set (m := Z.to_nat (a - 1 - b)).
    change (seq 0 (S (S m))) with (0%nat :: seq 1 (S m)).
    rewrite <- seq_shift. cbn [map]. rewrite map_map.
    f_equal; [lia|]. apply map_ext. intros k. lia.
Qed.

Lemma run_cons a b : run a b = a :: tl (run a b).
Proof.
  destruct (Z.lt_trichotomy a b) as [H|[H|H]].
  - rewrite run_up by lia. reflexivity.
  - subst. rewrite run_refl. reflexivity.
  - rewrite run_down by lia. reflexivity.
Qed.

Lemma run_hd_tl a b : tl (run a b) =
  if Z.eq_dec a b then []
  else if Z_gt_dec a b then (a - 1) :: tl (run (a - 1) b)
       else (a + 1) :: tl (run (a + 1) b).
Proof.
  destruct (Z.eq_dec a b) as [->|Hne].
  - now rewrite run_refl.
  - destruct (Z_gt_dec a b).
    + rewrite run_down by lia. cbn [tl]. apply run_cons.
    + rewrite run_up by lia. cbn [tl]. apply run_cons.
Qed.

Lemma back_snoc (route : list (Z * Z)) (c : Z * Z) :
  LQubit.back (route ++ [c]) = c.
Proof. unfold LQubit.back. apply last_last. Qed.

(** The first loop of [route] appends the rest of the row. *)
Lemma walk_x_run c_end route :
  LQubit.walk_x c_end route =
  route ++ map (fun x => (x, snd (LQubit.back route)))
               (tl (run (fst (LQubit.back route)) (fst c_end))).
Proof.
  funelim (LQubit.walk_x c_end route).
  - rewrite e, run_refl. cbn. now rewrite app_nil_r.
  - rewrite H. rewrite !back_snoc. cbn [fst snd].
    rewrite (run_hd_tl (fst (LQubit.back route))).
    destruct (Z.eq_dec _ _); [contradiction|].
    destruct (Z_gt_dec _ _); [|contradiction].
    cbn [map]. now rewrite <- app_assoc.
  - rewrite H. rewrite !back_snoc. cbn [fst snd].
    rewrite (run_hd_tl (fst (LQubit.back route))).
    destruct (Z.eq_dec _ _); [contradiction|].
    destruct (Z_gt_dec _ _); [contradiction|].
    cbn [map]. now rewrite <- app_assoc.
Qed.

(** The second loop appends the rest of the column. *)
Lemma walk_y_run c_end route :
  LQubit.walk_y c_end route =
  route ++ map (fun y => (fst (LQubit.back route), y))
               (tl (run (snd (LQubit.back route)) (snd c_end))).
Proof.
  funelim (LQubit.walk_y c_end route).
  - rewrite e, run_refl. cbn. now rewrite app_nil_r.
  - rewrite H. rewrite !back_snoc. cbn [fst snd].
    rewrite (run_hd_tl (snd (LQubit.back route))).
    destruct (Z.eq_dec _ _); [contradiction|].
    destruct (Z_gt_dec _ _); [|contradiction].
    cbn [map]. now rewrite <- app_assoc.
  - rewrite H. rewrite !back_snoc. cbn [fst snd].
    rewrite (run_hd_tl (snd (LQubit.back route))).
    destruct (Z.eq_dec _ _); [contradiction|].
    destruct (Z_gt_dec _ _); [contradiction|].
    cbn [map]. now rewrite <- app_assoc.
Qed.

Lemma run_ends a b : exists init, run a b = init ++ [b].
Proof.
  remember (Z.abs_nat (b - a)) as n eqn:Hn.
  revert a Hn. induction n as [|n IH]; intros a Hn.
  - assert (a = b) by lia. subst. exists []. apply run_refl.
  - destruct (Z_lt_dec a b) as [Hlt|Hge].
    + destruct (IH (a + 1)) as [init Hinit]; [lia|].
      exists (a :: init). rewrite run_up by lia. now rewrite Hinit.
    + destruct (IH (a - 1)) as [init Hinit]; [lia|].
      exists (a :: init). rewrite run_down by lia. now rewrite Hinit.
Qed.

Lemma back_map_run (f : Z -> Z * Z) a b :
  LQubit.back (map f (run a b)) = f b.
Proof.
  destruct (run_ends a b) as [init ->].
  rewrite map_app. cbn [map]. apply back_snoc.
Qed.

(** The two loops together build the L-shaped path of the spec. *)
Lemma walks_l_path c_start c_end :
  LQubit.walk_y c_end (LQubit.walk_x c_end [c_start]) = l_path c_start c_end.
Proof.
  rewrite walk_x_run. cbn [LQubit.back last].
  change ([c_start] ++ ?l) with (c_start :: l).
  assert (Hrow : c_start :: map (fun x => (x, snd c_start))
                                (tl (run (fst c_start) (fst c_end)))
                 = map (fun x => (x, snd c_start))
                       (run (fst c_start) (fst c_end))).
  { rewrite (run_cons (fst c_start) (fst c_end)) at 2. cbn [map].
    now destruct c_start. }
  rewrite Hrow, walk_y_run, back_map_run. reflexivity.
Qed.

Lemma route_spec lat start end_ :
  width lat <> 0 ->
  LQubit.route lat start end_ = Ok (spec_route (width lat) start end_).
Proof.
  intros Hw. unfold LQubit.route.
  destruct (Z.eqb_spec (width lat) 0) as [|_]; [contradiction|].
  now rewrite walks_l_path.
Qed.

Lemma index_of_coords w i : w <> 0 -> index_of w (coords w i) = i.
Proof.
  intros Hw. unfold index_of, coords. cbn [fst snd].
  rewrite (Z.div_mod i w Hw) at 3. lia.
Qed.

Lemma l_path_starts c_start c_end :
  exists rest, l_path c_start c_end = c_start :: rest.
Proof.
  unfold l_path. rewrite (run_cons (fst c_start) (fst c_end)).
  cbn [map app]. destruct c_start. eexists. reflexivity.
Qed.

Lemma l_path_ends c_start c_end :
  exists init, l_path c_start c_end = init ++ [c_end].
Proof.
  unfold l_path.
  destruct (Z.eq_dec (snd c_start) (snd c_end)) as [Heq|Hne].
  - rewrite Heq, run_refl. cbn [tl map]. rewrite app_nil_r.
    destruct (run_ends (fst c_start) (fst c_end)) as [init ->].
    rewrite map_app. cbn [map]. destruct c_end. eexists. reflexivity.
  - destruct (run_ends (snd c_start) (snd c_end)) as [init Hinit].
    rewrite Hinit. destruct init as [|y init].
    + exfalso. rewrite run_cons in Hinit. cbn in Hinit. congruence.
    + cbn [app tl]. rewrite map_app, app_assoc. cbn [map].
      destruct c_end. eexists. reflexivity.
Qed.

(** C7: on a lattice of non-zero width, [route(start, end)] returns
    the indices ([x + width * y]) of the L-shaped path that walks one
    column at a time from the column of [start] to the column of
    [end] and then one row at a time to the row of [end]; the
    sequence begins with [start] and ends with [end], and
    [route(a, a)] is the one-element sequence of [a]. *)
Theorem route_is_l_shaped_path (lat : Lattice) (start end_ : Z) :
  width lat <> 0 ->
  LQubit.route lat start end_ = Ok (spec_route (width lat) start end_)
  /\ (exists rest, spec_route (width lat) start end_ = start :: rest)
  /\ (exists init, spec_route (width lat) start end_ = init ++ [end_])
  /\ LQubit.route lat start start = Ok [start].
Proof.
  intros Hw. repeat split.
  - now apply route_spec.
  - unfold spec_route.
    destruct (l_path_starts (coords (width lat) start)
                            (coords (width lat) end_)) as [rest ->].
    cbn [map]. rewrite index_of_coords by assumption. eexists. reflexivity.
  - unfold spec_route.
    destruct (l_path_ends (coords (width lat) start)
                          (coords (width lat) end_)) as [init ->].
    rewrite map_app. cbn [map]. rewrite index_of_coords by assumption.
    eexists. reflexivity.
  - rewrite route_spec by assumption. unfold spec_route, l_path.
    rewrite !run_refl. cbn [map tl app].
    do 2 f_equal. now apply index_of_coords.
Qed.

Lemma route_is_l_shaped_path_witness :
  width square3 <> 0
  /\ LQubit.route square3 0 8 = Ok (spec_route (width square3) 0 8)
  /\ (exists rest, spec_route (width square3) 0 8 = 0 :: rest)
  /\ (exists init, spec_route (width square3) 0 8 = init ++ [8])
  /\ LQubit.route square3 0 0 = Ok [0].
Proof.
  split; [cbn; lia|].
  apply (route_is_l_shaped_path square3 0 8). cbn. lia.
Defined.

Lemma run_snoc_up a b : a < b -> run a b = run a (b - 1) ++ [b].
Proof.
  intros Hab. remember (Z.to_nat (b - a)) as n eqn:Hn.
  revert a Hab Hn. induction n as [|n IH]; intros a Hab Hn; [lia|].
  destruct (Z.eq_dec (a + 1) b) as [Heq|Hne].
  - rewrite run_up by lia. rewrite Heq, run_refl.
    replace (b - 1) with a by lia. now rewrite run_refl.
  - rewrite run_up by lia. rewrite (IH (a + 1)) by lia.
    rewrite (run_up a (b - 1)) by lia. reflexivity.
Qed.

Lemma run_snoc_down a b : b < a -> run a b = run a (b + 1) ++ [b].
Proof.
  intros Hab. remember (Z.to_nat (a - b)) as n eqn:Hn.
  revert a Hab Hn. induction n as [|n IH]; intros a Hab Hn; [lia|].
  destruct (Z.eq_dec (a - 1) b) as [Heq|Hne].
  - rewrite run_down by lia. rewrite Heq, run_refl.
    replace (b + 1) with a by lia. now rewrite run_refl.
  - rewrite run_down by lia. rewrite (IH (a - 1)) by lia.
    rewrite (run_down a (b + 1)) by lia. reflexivity.
Qed.

(** Walking back along a line visits the same positions in the
    opposite order. *)
Lemma run_rev a b : rev (run a b) = run b a.
Proof.
  remember (Z.abs_nat (b - a)) as n eqn:Hn.
  revert a Hn. induction n as [|n IH]; intros a Hn.
  - assert (a = b) by lia. subst. now rewrite run_refl.
  - destruct (Z_lt_dec a b) as [Hlt|Hge].
    + rewrite run_up by lia. cbn [rev]. rewrite IH by lia.
      symmetry. apply run_snoc_down. lia.
    + rewrite run_down by lia. cbn [rev]. rewrite IH by lia.
      symmetry. replace a with (a - 1 + 1) at 1 by lia.
      replace (run b (a - 1 + 1)) with (run b a) by (f_equal; lia).
      apply run_snoc_up. lia.
Qed.

Lemma l_path_same_row c1 c2 :
  snd c1 = snd c2 ->
  l_path c1 c2 = map (fun x => (x, snd c1)) (run (fst c1) (fst c2)).
Proof.
  intros Heq. unfold l_path. rewrite Heq, run_refl. cbn [tl map].
  apply app_nil_r.
Qed.

Lemma l_path_same_column c1 c2 :
  fst c1 = fst c2 ->
  l_path c1 c2 = map (fun y => (fst c1, y)) (run (snd c1) (snd c2)).
Proof.
  intros Heq. unfold l_path. rewrite <- Heq, run_refl.
  rewrite (run_cons (snd c1) (snd c2)). reflexivity.
Qed.

(** C8, as the code has it: when [a] and [b] lie in one row or in one
    column of a lattice of non-zero width, the reverse of
    [route(a, b)] is [route(b, a)]. *)
Theorem route_reverse_on_a_line (lat : Lattice) (a b : Z) :
  width lat <> 0 ->
  a mod width lat = b mod width lat \/ a / width lat = b / width lat ->
  result_map (@rev Z) (LQubit.route lat a b) = LQubit.route lat b a.
Proof.
  intros Hw Hline. rewrite !route_spec by assumption. cbn [result_map].
  f_equal. unfold spec_route. rewrite <- map_rev. f_equal.
  destruct Hline as [Hcol|Hrow].
  - rewrite !l_path_same_column by (cbn; congruence).
    rewrite <- map_rev, run_rev. cbn [coords fst snd]. now rewrite Hcol.
  - rewrite !l_path_same_row by (cbn; congruence).
    rewrite <- map_rev, run_rev. cbn [coords fst snd]. now rewrite Hrow.
Qed.

Lemma route_reverse_on_a_line_witness :
  width square3 <> 0
  /\ (0 mod width square3 = 6 mod width square3
      \/ 0 / width square3 = 6 / width square3)
  /\ result_map (@rev Z) (LQubit.route square3 0 6) = LQubit.route square3 6 0.
Proof.
  split; [cbn; lia|]. split; [left; reflexivity|].
  apply (route_reverse_on_a_line square3 0 6); [cbn; lia|left; reflexivity].
Defined.

(** C8 as stated fails: from corner 0 to the centre 4 of the 3 by 3
    lattice the route is 0, 1, 4 and the route back is 4, 3, 0. *)
Lemma route_reverse_counterexample :
  LQubit.route square3 0 4 = Ok [0; 1; 4]
  /\ LQubit.route square3 4 0 = Ok [4; 3; 0]
  /\ result_map (@rev Z) (LQubit.route square3 0 4) <> LQubit.route square3 4 0.
Proof.
  split; [reflexivity|]. split; [reflexivity|].
  rewrite !route_spec by (cbn; lia). vm_compute. discriminate.
Qed.

(** ** The constrained circuit accepts what is in range *)

Lemma qubit_ok_true qc q :
  in_range (num_qubits qc) q -> Constrained.qubit_ok qc q = true.
Proof.
  unfold in_range, Constrained.qubit_ok. intros [H0 H1].
  apply andb_true_intro. split; [now apply Z.leb_le | now apply Z.ltb_lt].
Qed.

Lemma clbit_ok_true qc c :
  in_range (num_clbits qc) c -> Constrained.clbit_ok qc c = true.
Proof.
  unfold in_range, Constrained.clbit_ok. intros [H0 H1].
  apply andb_true_intro. split; [now apply Z.leb_le | now apply Z.ltb_lt].
Qed.

Lemma qubits_ok_true qc qs :
  Forall (in_range (num_qubits qc)) qs ->
  forallb (Constrained.qubit_ok qc) qs = true.
Proof.
  intros H. apply forallb_forall. intros q Hq.
  apply qubit_ok_true. rewrite Forall_forall in H. now apply H.
Qed.

Lemma on_qubits_ok mk qs qc :
  Forall (in_range (num_qubits qc)) qs ->
  Constrained.on_qubits mk qs qc =
  Ok (emit_all (map (fun q => OGate (mk q)) qs) qc).
Proof.
  intros H. unfold Constrained.on_qubits. now rewrite qubits_ok_true.
Qed.

Lemma cx_ok c t qc :
  in_range (num_qubits qc) c -> in_range (num_qubits qc) t ->
  Constrained.cx c t qc = Ok (emit (OGate (GCX c t)) qc).
Proof.
  intros Hc Ht. unfold Constrained.cx. now rewrite !qubit_ok_true.
Qed.

Lemma measure1_ok q c qc :
  in_range (num_qubits qc) q -> in_range (num_clbits qc) c ->
  Constrained.measure [q] [c] qc = Ok (emit (OGate (GMeasure q c)) qc).
Proof.
  intros Hq Hc. unfold Constrained.measure. cbn.
  now rewrite qubit_ok_true, clbit_ok_true.
Qed.

Lemma emit_all_emit_all os1 os2 qc :
  emit_all os2 (emit_all os1 qc) = emit_all (os1 ++ os2) qc.
Proof. unfold emit_all. cbn. now rewrite app_assoc. Qed.

Lemma emit_is_emit_all o qc : emit o qc = emit_all [o] qc.
Proof. reflexivity. Qed.

(** A run of controlled-NOTs, one per element of [l]. *)
Lemma foldM_cx (mk : Z -> Gate) (f : Circuit -> Z -> result Circuit) l :
  forall qc,
    (forall qc' i, num_qubits qc' = num_qubits qc -> In i l ->
                   f qc' i = Ok (emit (OGate (mk i)) qc')) ->
    foldM f l qc = Ok (emit_all (map (fun i => OGate (mk i)) l) qc).
Proof.
  induction l as [|i l IH]; intros qc Hf.
  - cbn. unfold emit_all. rewrite app_nil_r. now destruct qc.
  - cbn [foldM]. rewrite Hf by (auto; now left). cbn [bind].
    rewrite IH.
    + rewrite emit_is_emit_all, emit_all_emit_all. reflexivity.
    + intros qc' i' Hn Hin. apply Hf; [exact Hn | now right].
Qed.

Lemma gates_app os1 os2 : gates (os1 ++ os2) = gates os1 ++ gates os2.
Proof.
  induction os1 as [|o os1 IH]; [reflexivity|].
  destruct o; cbn; now rewrite IH.
Qed.

Lemma gates_map_OGate (mk : Z -> Gate) l :
  gates (map (fun i => OGate (mk i)) l) = map mk l.
Proof. induction l as [|i l IH]; [reflexivity|]. cbn. now rewrite IH. Qed.

(** ** The gadgets of the surface code *)

Lemma surface_measure_z lat qZ edges :
  dict_get (graph lat) qZ = Ok edges ->
  in_range (len_nodes lat) qZ ->
  Forall (in_range (len_nodes lat)) (active_nodes edges) ->
  SurfaceCodeCycle._measure_z lat qZ =
  Ok (mkInstruction "measure_z" (len_nodes lat) 1
        ([GId qZ; GReset qZ]
           ++ map (fun i => GCX i qZ) (active_nodes edges)
           ++ [GMeasure qZ 0; GId qZ])).
Proof.
  intros Hget Hq Hns. unfold SurfaceCodeCycle._measure_z.
  rewrite Hget. cbn [bind].
  unfold Constrained.id, Constrained.reset.
  rewrite on_qubits_ok by (apply Forall_cons; [exact Hq | apply Forall_nil]). cbn [bind].
  rewrite on_qubits_ok by (apply Forall_cons; [exact Hq | apply Forall_nil]). cbn [bind].
  rewrite (foldM_cx (fun i => GCX i qZ)).
  2:{ intros qc' i Hn Hin. apply cx_ok; rewrite Hn; cbn.
      - rewrite Forall_forall in Hns. now apply Hns.
      - exact Hq. }
  cbn [bind]. rewrite measure1_ok by (cbn; unfold in_range in *; lia).
  cbn [bind]. rewrite on_qubits_ok by (apply Forall_cons; [exact Hq | apply Forall_nil]).
  cbn [bind]. unfold Constrained.to_instruction. f_equal.
  cbn [emit emit_all data num_qubits num_clbits Constrained.new map app].
  cbn [gates]. rewrite !gates_app, gates_map_OGate. cbn [gates].
  now rewrite <- app_assoc.
Qed.

Lemma surface_measure_x lat qX edges :
  dict_get (graph lat) qX = Ok edges ->
  in_range (len_nodes lat) qX ->
  Forall (in_range (len_nodes lat)) (active_nodes edges) ->
  SurfaceCodeCycle._measure_x lat qX =
  Ok (mkInstruction "measure_x" (len_nodes lat) 1
        ([GReset qX; GH qX]
           ++ map (fun i => GCX qX i) (active_nodes edges)
           ++ [GH qX; GMeasure qX 0])).
Proof.
  intros Hget Hq Hns. unfold SurfaceCodeCycle._measure_x.
  rewrite Hget. cbn [bind].
  unfold Constrained.h, Constrained.reset.
  rewrite on_qubits_ok by (apply Forall_cons; [exact Hq | apply Forall_nil]). cbn [bind].
  rewrite on_qubits_ok by (apply Forall_cons; [exact Hq | apply Forall_nil]). cbn [bind].
  rewrite (foldM_cx (fun i => GCX qX i)).
  2:{ intros qc' i Hn Hin. apply cx_ok; rewrite Hn; cbn.
      - exact Hq.
      - rewrite Forall_forall in Hns. now apply Hns. }
  cbn [bind]. rewrite on_qubits_ok by (apply Forall_cons; [exact Hq | apply Forall_nil]).
  cbn [bind]. rewrite measure1_ok by (cbn; unfold in_range in *; lia).
  cbn [bind]. unfold Constrained.to_instruction. f_equal.
  cbn [emit emit_all data num_qubits num_clbits Constrained.new map app].
  cbn [gates]. rewrite !gates_app, gates_map_OGate. cbn [gates].
  now rewrite <- app_assoc.
Qed.

(** While the edge records are up to date, the neighbours the gadgets
    act on are the neighbours that are active now. *)
Lemma active_nodes_live lat edges :
  coherent lat edges -> active_nodes edges = live_nodes lat edges.
Proof.
  unfold coherent, active_nodes, live_nodes.
  induction 1 as [|k edges (n & Hn & Hflag) _ IH]; [reflexivity|].
  cbn [filter]. rewrite Hn, Hflag.
  destruct (active k); cbn [map]; now rewrite IH.
Qed.

(** C5: for a node [q] of the lattice whose neighbours are in range
    (a Z node for the first gadget, an X node for the second; neither
    gadget looks at the role), [SurfaceCodeCycle._measure_z] is:
    identity, reset, one controlled-NOT from each active neighbour
    into [q], a measurement of [q] into its one classical bit,
    identity; and [_measure_x] is: reset, Hadamard, one
    controlled-NOT from [q] into each active neighbour, Hadamard,
    measurement.  "Active" is the flag the edge record carries, which
    is the current flag of the neighbour while the records are up to
    date. *)
Theorem surface_gadget_sequences (lat : Lattice) (q : Z) (edges : list Edge) :
  dict_get (graph lat) q = Ok edges ->
  in_range (len_nodes lat) q ->
  Forall (in_range (len_nodes lat)) (active_nodes edges) ->
  SurfaceCodeCycle._measure_z lat q =
    Ok (mkInstruction "measure_z" (len_nodes lat) 1
          ([GId q; GReset q]
             ++ map (fun i => GCX i q) (active_nodes edges)
             ++ [GMeasure q 0; GId q]))
  /\ SurfaceCodeCycle._measure_x lat q =
    Ok (mkInstruction "measure_x" (len_nodes lat) 1
          ([GReset q; GH q]
             ++ map (fun i => GCX q i) (active_nodes edges)
             ++ [GH q; GMeasure q 0]))
  /\ (coherent lat edges -> active_nodes edges = live_nodes lat edges).
Proof.
  intros Hget Hq Hns. split; [|split].
  - now apply surface_measure_z.
  - now apply surface_measure_x.
  - apply active_nodes_live.
Qed.

Lemma surface_gadget_sequences_witness :
  SurfaceCodeCycle._measure_z square3 1 =
    Ok (mkInstruction "measure_z" 9 1
          [GId 1; GReset 1; GCX 0 1; GCX 2 1; GCX 4 1; GMeasure 1 0; GId 1])
  /\ SurfaceCodeCycle._measure_x square3 1 =
    Ok (mkInstruction "measure_x" 9 1
          [GReset 1; GH 1; GCX 1 0; GCX 1 2; GCX 1 4; GH 1; GMeasure 1 0])
  /\ (coherent square3 (on_edges [0; 2; 4]) ->
      active_nodes (on_edges [0; 2; 4])
      = live_nodes square3 (on_edges [0; 2; 4])).
Proof.
  apply (surface_gadget_sequences square3 1 (on_edges [0; 2; 4])).
  - reflexivity.
  - unfold in_range. cbn. lia.
  - repeat constructor; cbn; lia.
Defined.

(** ** A round of the surface code *)

Lemma py_index_in_range {A} (l : list A) i :
  in_range (Z.of_nat (List.length l)) i ->
  exists a, py_index l i = Ok a.
Proof.
  unfold in_range, py_index. intros [H0 H1].
  destruct (Z.ltb_spec i 0) as [|_]; [lia|].
  replace (0 <=? i) with true by (symmetry; now apply Z.leb_le).
  replace (i <? Z.of_nat (List.length l)) with true
    by (symmetry; now apply Z.ltb_lt).
  cbn [andb].
  destruct (nth_error l (Z.to_nat i)) as [a|] eqn:Hnth.
  - now exists a.
  - apply nth_error_None in Hnth. lia.
Qed.

Lemma py_index_nth {A} (l : list A) i :
  in_range (Z.of_nat (List.length l)) i ->
  py_index l i = match nth_error l (Z.to_nat i) with
                 | Some a => Ok a
                 | None => Raise IndexError
                 end.
Proof.
  unfold in_range, py_index. intros [H0 H1].
  destruct (Z.ltb_spec i 0) as [|_]; [lia|].
  replace (0 <=? i) with true by (symmetry; now apply Z.leb_le).
  replace (i <? Z.of_nat (List.length l)) with true
    by (symmetry; now apply Z.ltb_lt).
  reflexivity.
Qed.

Lemma dict_get_In {V} (d : list (Z * V)) k v :
  dict_get d k = Ok v -> In (k, v) d.
Proof.
  induction d as [|[k' v'] d IH]; cbn; [discriminate|].
  destruct (Z.eqb_spec k k') as [->|Hne].
  - intros [= ->]. now left.
  - intros H. right. now apply IH.
Qed.

Lemma dict_get_key {V} (d : list (Z * V)) k :
  In k (keys d) -> exists v, dict_get d k = Ok v.
Proof.
  induction d as [|[k' v'] d IH]; cbn; [contradiction|].
  intros [Heq|Hin].
  - subst. rewrite Z.eqb_refl. now exists v'.
  - destruct (Z.eqb_spec k k'); [now exists v'|]. now apply IH.
Qed.

Lemma py_range_in_range n : Forall (in_range n) (py_range n).
Proof.
  apply Forall_forall. intros q Hq. unfold py_range in Hq.
  apply in_map_iff in Hq. destruct Hq as [k [<- Hk]].
  apply in_seq in Hk. unfold in_range. lia.
Qed.

Lemma append_ok inst qargs cargs qc :
  Forall (in_range (num_qubits qc)) qargs ->
  Forall (in_range (num_clbits qc)) cargs ->
  Constrained.append inst qargs cargs qc =
  Ok (emit (OAppend inst qargs cargs) qc).
Proof.
  intros Hq Hc. unfold Constrained.append.
  rewrite qubits_ok_true by assumption.
  replace (forallb (Constrained.clbit_ok qc) cargs) with true; [reflexivity|].
  symmetry. apply forallb_forall. intros c Hin.
  apply clbit_ok_true. rewrite Forall_forall in Hc. now apply Hc.
Qed.

(** The active neighbours of a key of a well-formed lattice are in
    range. *)
Lemma active_nodes_in_range lat i edges :
  lattice_ok lat ->
  dict_get (graph lat) i = Ok edges ->
  Forall (in_range (len_nodes lat)) (active_nodes edges).
Proof.
  intros (_ & _ & Hedges) Hget. apply dict_get_In in Hget.
  rewrite Forall_forall in Hedges. specialize (Hedges _ Hget).
  cbn [snd] in Hedges. rewrite Forall_forall in Hedges.
  apply Forall_forall. intros q Hq. unfold active_nodes in Hq.
  apply in_map_iff in Hq. destruct Hq as [k [<- Hk]].
  apply filter_In in Hk. now apply Hedges.
Qed.

Lemma emit_all_nil qc : emit_all [] qc = qc.
Proof. unfold emit_all. rewrite app_nil_r. now destruct qc. Qed.

(** One step of the node loop does what the spec says of the node. *)
Lemma surface_visit lat j qc i :
  lattice_ok lat ->
  In i (keys (graph lat)) ->
  num_qubits qc = len_nodes lat ->
  num_clbits qc = (j + 1) * len_nodes lat ->
  0 <= j ->
  SurfaceCodeCycle.visit lat j qc i = Ok (emit_all (spec_node lat j i) qc).
Proof.
  intros Hok Hin Hnq Hnc Hj.
  assert (Hi : in_range (len_nodes lat) i) by (now apply Hok).
  destruct (dict_get_key _ _ Hin) as [edges Hget].
  pose proof (active_nodes_in_range _ _ _ Hok Hget) as Hns.
  destruct (py_index_in_range (nodes lat) i Hi) as [nd Hnd].
  assert (Hbit : Forall (in_range (num_clbits qc)) [i + j * len_nodes lat]).
  { constructor; [|constructor]. rewrite Hnc. unfold in_range in *. nia. }
  assert (Hqs : Forall (in_range (num_qubits qc)) (py_range (len_nodes lat))).
  { rewrite Hnq. apply py_range_in_range. }
  unfold SurfaceCodeCycle.visit, spec_node, spec_gadget, type_of.
  rewrite Hnd, Hget. cbn [bind].
  destruct (role nd).
  1, 2, 5, 6: now rewrite emit_all_nil.
  - rewrite (surface_measure_z lat i edges) by assumption. cbn [bind].
    now rewrite append_ok.
  - rewrite (surface_measure_x lat i edges) by assumption. cbn [bind].
    now rewrite append_ok.
Qed.

Lemma surface_visit_all lat j l :
  lattice_ok lat ->
  0 <= j ->
  (forall i, In i l -> In i (keys (graph lat))) ->
  forall qc,
    num_qubits qc = len_nodes lat ->
    num_clbits qc = (j + 1) * len_nodes lat ->
    foldM (SurfaceCodeCycle.visit lat j) l qc =
    Ok (emit_all (flat_map (spec_node lat j) l) qc).
Proof.
  intros Hok Hj. induction l as [|i l IH]; intros Hl qc Hnq Hnc.
  - cbn. now rewrite emit_all_nil.
  - cbn [foldM flat_map].
    rewrite surface_visit by (auto; apply Hl; now left). cbn [bind].
    rewrite IH; [| intros; apply Hl; now right | exact Hnq | exact Hnc].
    now rewrite emit_all_emit_all.
Qed.

Lemma surface_round lat j qc :
  lattice_ok lat ->
  0 <= j ->
  num_qubits qc = len_nodes lat ->
  num_clbits qc = j * len_nodes lat ->
  SurfaceCodeCycle.round lat qc j =
  Ok (mkCircuit (len_nodes lat) ((j + 1) * len_nodes lat)
                (data qc ++ spec_round lat j)).
Proof.
  intros Hok Hj Hnq Hnc. unfold SurfaceCodeCycle.round.
  unfold Constrained.add_register. cbn [bind].
  rewrite surface_visit_all; auto; [| cbn; lia].
  cbn [bind]. unfold Constrained.barrier, emit, emit_all, spec_round.
  cbn [num_qubits num_clbits data]. rewrite Hnq, Hnc.
  f_equal. f_equal; [lia|]. now rewrite <- !app_assoc.
Qed.

Lemma surface_rounds lat m :
  lattice_ok lat ->
  forall k qc,
    num_qubits qc = len_nodes lat ->
    num_clbits qc = Z.of_nat k * len_nodes lat ->
    foldM (SurfaceCodeCycle.round lat) (map Z.of_nat (seq k m)) qc =
    Ok (mkCircuit (len_nodes lat) (Z.of_nat (k + m) * len_nodes lat)
          (data qc ++ flat_map (spec_round lat) (map Z.of_nat (seq k m)))).
Proof.
  intros Hok. induction m as [|m IH]; intros k qc Hnq Hnc.
  - cbn. rewrite app_nil_r, Nat.add_0_r, <- Hnc, <- Hnq. now destruct qc.
  - cbn [seq map foldM flat_map].
    rewrite surface_round by (auto; lia). cbn [bind].
    rewrite IH; cbn [num_qubits num_clbits data]; [| reflexivity | f_equal; lia].
    f_equal. f_equal; [f_equal; lia|]. now rewrite <- app_assoc.
Qed.

Lemma filter_spec_node lat j i k :
  filter (measures_into (i + j * len_nodes lat)) (spec_node lat j k) =
  if k =? i then spec_node lat j k else [].
Proof.
  unfold spec_node. destruct (spec_gadget lat k) as [inst|].
  - cbn. rewrite orb_false_r.
    destruct (Z.eqb_spec k i) as [->|Hne].
    + now rewrite Z.eqb_refl.
    + destruct (Z.eqb_spec (i + j * len_nodes lat) (k + j * len_nodes lat));
        [lia | reflexivity].
  - now destruct (k =? i).
Qed.

Lemma filter_other_nodes lat j i l :
  ~ In i l ->
  filter (measures_into (i + j * len_nodes lat))
         (flat_map (spec_node lat j) l) = [].
Proof.
  induction l as [|k l IH]; intros Hnin; [reflexivity|].
  cbn [flat_map]. rewrite filter_app, filter_spec_node.
  destruct (Z.eqb_spec k i) as [->|Hne].
  - exfalso. apply Hnin. now left.
  - apply IH. intros Hin. apply Hnin. now right.
Qed.

Lemma filter_own_node lat j i l :
  NoDup l -> In i l ->
  filter (measures_into (i + j * len_nodes lat))
         (flat_map (spec_node lat j) l) = spec_node lat j i.
Proof.
  induction l as [|k l IH]; intros Hnd Hin; [contradiction|].
  inversion Hnd as [|? ? Hk Hnd']; subst.
  cbn [flat_map]. rewrite filter_app, filter_spec_node.
  destruct (Z.eqb_spec k i) as [->|Hne].
  - rewrite filter_other_nodes by assumption. apply app_nil_r.
  - destruct Hin as [Heq|Hin]; [contradiction|]. now apply IH.
Qed.

Lemma all_appends lat j l :
  filter is_append (flat_map (spec_node lat j) l)
  = flat_map (spec_node lat j) l.
Proof.
  induction l as [|k l IH]; [reflexivity|].
  cbn [flat_map]. rewrite filter_app, IH. f_equal.
  unfold spec_node. now destruct (spec_gadget lat k).
Qed.

Lemma spec_nodes_no (f : Op -> bool) lat j l :
  (forall inst qs cs, f (OAppend inst qs cs) = false) ->
  filter f (flat_map (spec_node lat j) l) = [].
Proof.
  intros Hf. induction l as [|k l IH]; [reflexivity|].
  cbn [flat_map]. rewrite filter_app, IH, app_nil_r.
  unfold spec_node. destruct (spec_gadget lat k); [|reflexivity].
  cbn. now rewrite Hf.
Qed.

Lemma py_range_NoDup n : NoDup (py_range n).
Proof.
  unfold py_range. generalize (seq_NoDup (Z.to_nat n) 0).
  generalize (seq 0 (Z.to_nat n)). intros l Hl.
  induction Hl as [|k l Hk _ IH]; cbn; constructor; [|exact IH].
  intros Hin. apply in_map_iff in Hin. destruct Hin as [k' [Heq Hin]].
  apply Nat2Z.inj in Heq. now subst.
Qed.

(** Counting along the list of nodes. *)
Lemma count_by_index {A} (p : A -> bool) (g : Z -> list Op) (l : list A) :
  forall off,
    (forall k a, nth_error l k = Some a ->
                 List.length (g (Z.of_nat (off + k))) = if p a then 1%nat else 0%nat) ->
    List.length (flat_map g (map Z.of_nat (seq off (List.length l))))
    = List.length (filter p l).
Proof.
  induction l as [|a l IH]; intros off Hg; [reflexivity|].
  cbn [List.length seq map flat_map filter]. rewrite length_app.
  rewrite (IH (S off)).
  - specialize (Hg 0%nat a eq_refl). rewrite Nat.add_0_r in Hg. rewrite Hg.
    now destruct (p a).
  - intros k a' Hk. specialize (Hg (S k) a' Hk).
    now replace (S off + k)%nat with (off + S k)%nat by lia.
Qed.

(** A round has as many gadgets as the lattice has Z and X nodes. *)
Lemma gadgets_in_a_round lat j :
  lattice_ok lat ->
  List.length (flat_map (spec_node lat j) (keys (graph lat)))
  = List.length (filter is_syndrome (nodes lat)).
Proof.
  intros (Hnd & Hkeys & _).
  assert (Hperm : Permutation (keys (graph lat)) (py_range (len_nodes lat))).
  { apply NoDup_Permutation; [exact Hnd | apply py_range_NoDup |].
    intros i. rewrite Hkeys. unfold py_range, in_range, len_nodes.
    rewrite in_map_iff. split.
    - intros Hi. exists (Z.to_nat i). split; [lia|]. apply in_seq. lia.
    - intros [k [<- Hk]]. apply in_seq in Hk. lia. }
  rewrite (Permutation_length (Permutation_flat_map (spec_node lat j) Hperm)).
  unfold py_range, len_nodes. rewrite Nat2Z.id.
  apply count_by_index. intros k a Hk. cbn [Nat.add].
  assert (Hlt : (k < List.length (nodes lat))%nat)
    by (apply nth_error_Some; congruence).
  assert (Hin : in_range (len_nodes lat) (Z.of_nat k))
    by (unfold in_range, len_nodes; lia).
  destruct (dict_get_key (graph lat) (Z.of_nat k)) as [edges Hget];
    [now apply Hkeys|].
  unfold spec_node, spec_gadget, type_of, is_syndrome.
  rewrite py_index_nth by exact Hin. rewrite Nat2Z.id, Hk, Hget.
  cbn [bind]. now destruct (role a).
Qed.

(** C1: on a well-formed lattice [_circuit(num_cycles)] returns, and
    its operations are the rounds [0 .. num_cycles-1] one after the
    other.  Round [j] appends exactly one classical register, of
    width [num_nodes], and ends with its one barrier; what it writes
    into classical bit [i + j * num_nodes] is exactly the contribution
    of node [i]: one gadget when the node is a Z node or an X node,
    nothing for any other role. *)
Theorem surface_circuit_round_structure (lat : Lattice) (num_cycles : Z) :
  lattice_ok lat ->
  (exists qc,
      SurfaceCodeCycle._circuit lat num_cycles = Ok qc
      /\ data qc = flat_map (spec_round lat) (py_range num_cycles))
  /\ forall j,
      filter is_register (spec_round lat j) = [OAddRegister (len_nodes lat)]
      /\ filter is_barrier (spec_round lat j) = [OBarrier]
      /\ (exists ops, spec_round lat j = ops ++ [OBarrier])
      /\ List.length (filter is_append (spec_round lat j))
         = List.length (filter is_syndrome (nodes lat))
      /\ forall i,
          in_range (len_nodes lat) i ->
          filter (measures_into (i + j * len_nodes lat)) (spec_round lat j)
          = spec_node lat j i
          /\ match type_of lat i with
             | Ok ZNode | Ok XNode =>
                 exists inst,
                 spec_node lat j i =
                 [OAppend inst (py_range (len_nodes lat))
                          [i + j * len_nodes lat]]
             | _ => spec_node lat j i = []
             end.
Proof.
  intros Hok. split.
  - unfold SurfaceCodeCycle._circuit, py_range.
    rewrite surface_rounds; [| assumption | reflexivity | cbn; lia].
    eexists. split; [reflexivity|]. reflexivity.
  - intros j. unfold spec_round. repeat split.
    + rewrite !filter_app, spec_nodes_no by reflexivity. reflexivity.
    + rewrite !filter_app, spec_nodes_no by reflexivity. reflexivity.
    + eexists. rewrite app_assoc. reflexivity.
    + rewrite !filter_app. cbn [filter is_append app].
      rewrite app_nil_r, all_appends. now apply gadgets_in_a_round.
    + rewrite !filter_app. cbn [filter measures_into].
      rewrite filter_own_node; [apply app_nil_r | apply Hok | now apply Hok].
    + destruct Hok as (_ & Hkeys & _).
      destruct (dict_get_key (graph lat) i) as [edges Hget];
        [now apply Hkeys|].
      unfold spec_node, spec_gadget. rewrite Hget.
      destruct (type_of lat i) as [[| | | | |]|]; try reflexivity;
        eexists; reflexivity.
Qed.

Lemma square3_ok : lattice_ok square3.
Proof.
  split; [|split].
  - repeat constructor; cbn; lia.
  - intros i. unfold in_range. cbn. lia.
  - repeat constructor; cbn; lia.
Qed.

Lemma surface_circuit_round_structure_witness :
  lattice_ok square3
  /\ exists qc,
      SurfaceCodeCycle._circuit square3 3 = Ok qc
      /\ data qc = flat_map (spec_round square3) (py_range 3).
Proof.
  split; [exact square3_ok|].
  exact (proj1 (surface_circuit_round_structure square3 3 square3_ok)).
Defined.

(** The end-to-end example of the spec: three rounds on the 3 by 3
    lattice give three registers of width 9, three barriers, 27
    classical bits, and four gadgets a round. *)
Example surface_three_rounds_on_square3 :
  match SurfaceCodeCycle._circuit square3 3 with
  | Ok qc =>
      filter is_register (data qc)
      = [OAddRegister 9; OAddRegister 9; OAddRegister 9]
      /\ filter is_barrier (data qc) = [OBarrier; OBarrier; OBarrier]
      /\ num_qubits qc = 9 /\ num_clbits qc = 27
      /\ List.length (data qc) = 18%nat
  | Raise _ => False
  end.
Proof. vm_compute. repeat split. Qed.

(** ** Switching nodes *)

Lemma length_replace_at {A} k (a : A) l :
  List.length (replace_at k a l) = List.length l.
Proof.
  revert k. induction l as [|x l IH]; intros [|k]; cbn; auto.
Qed.

Lemma nth_error_replace_at {A} k k' (a : A) l :
  nth_error (replace_at k a l) k' =
  if Nat.eqb k' k
  then (if Nat.ltb k (List.length l) then Some a else None)
  else nth_error l k'.
Proof.
  revert k k'. induction l as [|x l IH]; intros k k'.
  - cbn. destruct k, k'; cbn; try reflexivity.
    now destruct (Nat.eqb k' k).
  - destruct k as [|k], k' as [|k']; cbn [replace_at nth_error]; try reflexivity.
    rewrite IH. cbn [Nat.eqb List.length].
    destruct (Nat.eqb k' k); [|reflexivity].
    change (Nat.ltb (S k) (S (List.length l))) with (Nat.ltb k (List.length l)).
    reflexivity.
Qed.

Lemma py_store_in_range {A} (l : list A) i a :
  in_range (Z.of_nat (List.length l)) i ->
  py_store l i a = Ok (replace_at (Z.to_nat i) a l).
Proof.
  unfold in_range, py_store. intros [H0 H1].
  destruct (Z.ltb_spec i 0) as [|_]; [lia|].
  replace (0 <=? i) with true by (symmetry; now apply Z.leb_le).
  replace (i <? Z.of_nat (List.length l)) with true
    by (symmetry; now apply Z.ltb_lt).
  reflexivity.
Qed.

(** What one switch does to the lattice. *)
Lemma switch_node_effect lat index b :
  in_range (len_nodes lat) index ->
  exists lat',
    _switch_node lat index b = Ok lat'
    /\ len_nodes lat' = len_nodes lat
    /\ width lat' = width lat
    /\ graph lat' =
       map (fun kv => (fst kv, map (recache index b) (snd kv))) (graph lat)
    /\ (forall i, in_range (len_nodes lat) i ->
                  type_of lat' i = type_of lat i)
    /\ (forall i, in_range (len_nodes lat) i ->
                  activity lat' i =
                  if i =? index then Ok b else activity lat i).
Proof.
  intros Hin. unfold _switch_node.
  destruct (py_index_in_range (nodes lat) index Hin) as [nd Hnd].
  rewrite Hnd. cbn [bind]. rewrite py_store_in_range by exact Hin.
  cbn [bind]. eexists. split; [reflexivity|].
  unfold len_nodes. cbn [nodes graph width].
  rewrite length_replace_at. repeat split.
  - intros i Hi. unfold type_of. cbn [nodes].
    rewrite !py_index_nth by (now rewrite ?length_replace_at).
    rewrite nth_error_replace_at.
    rewrite py_index_nth in Hnd by exact Hin.
    destruct (Nat.eqb_spec (Z.to_nat i) (Z.to_nat index)) as [Heq|Hne];
      [|reflexivity].
    rewrite Heq.
    destruct (nth_error (nodes lat) (Z.to_nat index)) as [nd'|] eqn:Hnth;
      [|discriminate].
    injection Hnd as ->.
    assert (Hlt : (Z.to_nat index < List.length (nodes lat))%nat)
      by (apply nth_error_Some; congruence).
    apply Nat.ltb_lt in Hlt. rewrite Hlt. reflexivity.
  - intros i Hi. unfold activity. cbn [nodes].
    rewrite !py_index_nth by (now rewrite ?length_replace_at).
    rewrite nth_error_replace_at.
    unfold in_range in *.
    destruct (Z.eqb_spec i index) as [->|Hne].
    + rewrite Nat.eqb_refl.
      replace (Nat.ltb (Z.to_nat index) (List.length (nodes lat))) with true
        by (symmetry; apply Nat.ltb_lt; lia).
      reflexivity.
    + destruct (Nat.eqb_spec (Z.to_nat i) (Z.to_nat index)) as [Heq|_];
        [lia | reflexivity].
Qed.

Lemma recache_twice m a b k :
  recache a b (recache m b k) = recache2 m a b k.
Proof.
  unfold recache, recache2.
  destruct (Z.eqb_spec (node k) m) as [Hm|Hm]; cbn [node orb].
  - rewrite Hm. now destruct (m =? a).
  - reflexivity.
Qed.

(** Two switches in a row, as [initialize] and [measure] make them. *)
Lemma switch_two lat m a b :
  in_range (len_nodes lat) m ->
  in_range (len_nodes lat) a ->
  exists lat',
    switched m a b lat lat'
    /\ forall (X : Type) (x : X),
        (_ <~ switch_node m b ;; _ <~ switch_node a b ;; ret x) lat
        = (Ok x, lat').
Proof.
  intros Hm Ha.
  destruct (switch_node_effect lat m b Hm)
    as (lat1 & Hrun1 & Hlen1 & Hw1 & Hg1 & Hty1 & Hact1).
  assert (Ha1 : in_range (len_nodes lat1) a) by (now rewrite Hlen1).
  destruct (switch_node_effect lat1 a b Ha1)
    as (lat2 & Hrun2 & Hlen2 & Hw2 & Hg2 & Hty2 & Hact2).
  exists lat2. split.
  - unfold switched. repeat split.
    + congruence.
    + congruence.
    + rewrite Hg2, Hg1, map_map. apply map_ext. intros [key es].
      cbn [fst snd]. f_equal. rewrite map_map. apply map_ext.
      intros k. apply recache_twice.
    + intros i Hi. rewrite Hty2 by (now rewrite Hlen1). now apply Hty1.
    + intros i Hi. rewrite Hact2 by (now rewrite Hlen1).
      rewrite Hact1 by assumption.
      destruct (i =? m), (i =? a); reflexivity.
  - intros X x. unfold mbind, switch_node, ret.
    now rewrite Hrun1, Hrun2.
Qed.

(** ** The four neighbours of the measurement node *)

Lemma coords_unique w i x y :
  0 < w -> 0 <= x < w -> i = x + w * y -> coords w i = (x, y).
Proof.
  intros Hw Hx Hi. unfold coords. f_equal.
  - symmetry. apply (Z.mod_unique i w y x); [now left | lia].
  - symmetry. apply (Z.div_unique i w y x); [now left | lia].
Qed.

Lemma interior_neighbours lat m :
  0 < width lat ->
  interior lat m ->
  Forall (fun p => neighbour_at lat m (snd p) (fst p))
         (addressed m (width lat)).
Proof.
  intros Hw (Hx0 & Hx1 & Hup & Hdown).
  pose proof (Z.mod_pos_bound m (width lat) Hw) as Hx.
  pose proof (Z.div_mod m (width lat) ltac:(lia)) as Hm.
  unfold addressed, neighbour_at, in_range in *. cbn [fst snd coords].
  repeat constructor; cbn [fst snd]; try lia.
  - apply coords_unique; lia.
  - apply coords_unique; lia.
  - apply coords_unique; lia.
  - apply coords_unique; lia.
Qed.

Lemma boundary_misses lat m :
  0 < width lat ->
  ~ interior lat m ->
  Exists (fun p => ~ neighbour_at lat m (snd p) (fst p))
         (addressed m (width lat)).
Proof.
  intros Hw Hnot.
  pose proof (Z.mod_pos_bound m (width lat) Hw) as Hx.
  pose proof (Z.mod_pos_bound (m - 1) (width lat) Hw) as Hl.
  pose proof (Z.mod_pos_bound (m + 1) (width lat) Hw) as Hr.
  unfold interior in Hnot. unfold addressed, neighbour_at.
  destruct (Z.eq_dec (m mod width lat) 0) as [H0|H0].
  { apply Exists_cons_tl, Exists_cons_hd. cbn [fst snd coords].
    intros [_ Heq]. injection Heq as Heq _. lia. }
  destruct (Z.eq_dec (m mod width lat) (width lat - 1)) as [H1|H1].
  { apply Exists_cons_hd. cbn [fst snd coords].
    intros [_ Heq]. injection Heq as Heq _. lia. }
  assert (Hrange : ~ in_range (len_nodes lat) (m - width lat)
                   \/ ~ in_range (len_nodes lat) (m + width lat)).
  { unfold in_range in *. lia. }
  destruct Hrange as [Hup|Hdown].
  - do 3 apply Exists_cons_tl. apply Exists_cons_hd. cbn [fst snd].
    now intros [Hin _].
  - do 2 apply Exists_cons_tl. apply Exists_cons_hd. cbn [fst snd].
    now intros [Hin _].
Qed.

(** ** Moving a cell *)

(** Whatever [move_cell] is given, a circuit it returns is the empty
    circuit it started from. *)
Lemma move_cell_circuit_is_empty self cycle start end_ lat qc lat' :
  LQubit.move_cell self cycle start end_ lat = (Ok qc, lat') ->
  qc = QuantumCircuit.new (len_nodes lat) (3 * (len_nodes lat / 2)).
Proof.
  unfold LQubit.move_cell, mbind, reading, ret.
  destruct (LQubit.route lat start end_) as [route|]; [|discriminate].
  destruct (for_each _ route lat) as [[[]|] lat1]; [|discriminate].
  destruct (cycle lat1 1) as [round1|]; [|discriminate].
  destruct (LQubit.pop route) as [route'|]; [|discriminate].
  destruct (for_each _ route' lat1) as [[[]|] lat2]; [|discriminate].
  destruct (cycle lat2 1) as [round2|]; [|discriminate].
  now intros [= <- _].
Qed.

(** C9 on [square5], moving from node 11 to node 13 with the
    surface-code builder: the three route nodes are switched off, all
    but the last are switched back on, both rounds are built without
    an exception, and the circuit that comes back holds neither. *)
Theorem move_cell_returns_empty_circuit :
  exists qc lat',
    LQubit.move_cell zcut5 SurfaceCodeCycle._circuit 11 13 square5
    = (Ok qc, lat')
    /\ LQubit.route square5 11 13 = Ok [11; 12; 13]
    /\ activity lat' 11 = Ok true
    /\ activity lat' 12 = Ok true
    /\ activity lat' 13 = Ok false
    /\ data qc = []
    /\ exists round, SurfaceCodeCycle._circuit lat' 1 = Ok round
                     /\ List.length (data round) = 14%nat.
Proof.
  eexists. eexists. split; [vm_compute; reflexivity|].
  repeat split. eexists. split; [vm_compute; reflexivity|]. reflexivity.
Qed.

(** ** The gadgets of the heavy-hex code *)

Lemma py_index_0 {A} (a : A) l : py_index (a :: l) 0 = Ok a.
Proof.
  unfold py_index. cbn [Z.ltb Z.compare List.length].
  replace (0 <=? 0) with true by reflexivity.
  replace (0 <? Z.of_nat (S (List.length l))) with true
    by (symmetry; apply Z.ltb_lt; lia).
  reflexivity.
Qed.

Lemma py_index_1 {A} (a b : A) l : py_index (a :: b :: l) 1 = Ok b.
Proof.
  unfold py_index. cbn [Z.ltb Z.compare List.length].
  replace (0 <=? 1) with true by reflexivity.
  replace (1 <? Z.of_nat (S (S (List.length l)))) with true
    by (symmetry; apply Z.ltb_lt; lia).
  reflexivity.
Qed.

Lemma measure_ok qs cs qc :
  List.length qs = List.length cs ->
  Forall (in_range (num_qubits qc)) qs ->
  Forall (in_range (num_clbits qc)) cs ->
  Constrained.measure qs cs qc =
  Ok (emit_all (map (fun p => OGate (GMeasure (fst p) (snd p)))
                    (combine qs cs)) qc).
Proof.
  intros Hlen Hq Hc. unfold Constrained.measure.
  rewrite Hlen, Nat.eqb_refl. cbn [Constrained.check bind].
  rewrite qubits_ok_true by assumption.
  replace (forallb (Constrained.clbit_ok qc) cs) with true; [reflexivity|].
  symmetry. apply forallb_forall. intros c Hin.
  apply clbit_ok_true. rewrite Forall_forall in Hc. now apply Hc.
Qed.

Lemma has_role_true lat r i : type_of lat i = Ok r -> has_role lat r i = true.
Proof. unfold has_role. intros ->. now destruct r. Qed.

(** The loop of the heavy-hex [_measure_z] collects the active data
    neighbours when every active neighbour is a data node or an
    ancilla. *)
Lemma data_side_fold lat edges :
  Forall (fun k => active k = true ->
                   type_of lat (node k) = Ok DataNode
                   \/ type_of lat (node k) = Ok AncillaNode) edges ->
  forall acc,
    foldM (HeavyHexCode.data_side lat) edges acc =
    Ok (acc ++ data_neighbours lat edges).
Proof.
  unfold data_neighbours.
  induction 1 as [|k edges Hk _ IH]; intros acc.
  - cbn. now rewrite app_nil_r.
  - cbn [foldM filter]. unfold HeavyHexCode.data_side at 1, has_role at 1.
    destruct (active k); cbn [andb bind].
    + destruct (Hk eq_refl) as [Hty|Hty]; rewrite Hty; cbn.
      * rewrite IH, <- app_assoc. reflexivity.
      * apply IH.
    + apply IH.
Qed.

(** The inner loop of [_measure_x_4] collects the far side of a flag
    when all of it is data nodes. *)
Lemma flag_side_fold lat qX edges :
  Forall (fun d => type_of lat d = Ok DataNode) (far_side qX edges) ->
  forall acc,
    foldM (HeavyHexCode.flag_side lat qX) edges acc =
    Ok (acc ++ far_side qX edges).
Proof.
  unfold far_side.
  induction edges as [|k edges IH]; intros Hdata acc.
  - cbn. now rewrite app_nil_r.
  - cbn [foldM filter] in *. unfold HeavyHexCode.flag_side at 1.
    destruct (active k && negb (node k =? qX)).
    + cbn [map] in Hdata. inversion Hdata as [|? ? Hty Hrest]; subst.
      rewrite Hty. cbn. rewrite (IH Hrest), <- app_assoc. reflexivity.
    + cbn [bind]. now apply IH.
Qed.

Ltac in_circuit_range :=
  cbn [num_qubits num_clbits emit emit_all Constrained.new];
  first [ assumption
        | unfold in_range; lia
        | repeat (apply Forall_cons; [assumption|]); apply Forall_nil ].

(** C4: for a flag [q] whose active neighbours are data nodes or
    ancillas and whose active data neighbours are exactly [d0]
    (met first) and [d1] (met second), the heavy-hex [_measure_z] is:
    reset the flag, controlled-NOT from [d1] into the flag, then from
    [d0] into the flag, measure the flag into its one classical
    bit. *)
Theorem heavy_hex_measure_z_sequence
        (lat : Lattice) (q d0 d1 : Z) (edges : list Edge) :
  type_of lat q = Ok FlagNode ->
  dict_get (graph lat) q = Ok edges ->
  Forall (fun k => active k = true ->
                   type_of lat (node k) = Ok DataNode
                   \/ type_of lat (node k) = Ok AncillaNode) edges ->
  data_neighbours lat edges = [d0; d1] ->
  in_range (len_nodes lat) q ->
  in_range (len_nodes lat) d0 ->
  in_range (len_nodes lat) d1 ->
  HeavyHexCode._measure_z lat q =
  Ok (mkInstruction "measure_z" (len_nodes lat) 1
        [GReset q; GCX d1 q; GCX d0 q; GMeasure q 0]).
Proof.
  intros Hty Hget Hshape Hdata Hq H0 H1.
  unfold HeavyHexCode._measure_z.
  rewrite Hty. cbn [bind Role_eqb assert]. rewrite Hget. cbn [bind].
  rewrite data_side_fold by assumption. cbn [app bind]. rewrite Hdata.
  unfold Constrained.reset.
  rewrite on_qubits_ok by in_circuit_range. cbn [bind].
  rewrite py_index_1. cbn [bind]. rewrite cx_ok by in_circuit_range.
  cbn [bind]. rewrite py_index_0. cbn [bind].
  rewrite cx_ok by in_circuit_range. cbn [bind].
  rewrite measure1_ok by in_circuit_range. cbn [bind].
  reflexivity.
Qed.

Lemma heavy_hex_measure_z_sequence_witness :
  HeavyHexCode._measure_z diamond 4 =
  Ok (mkInstruction "measure_z" 7 1
        [GReset 4; GCX 1 4; GCX 0 4; GMeasure 4 0]).
Proof.
  apply (heavy_hex_measure_z_sequence diamond 4 0 1 (on_edges [0; 6; 1])).
  - reflexivity.
  - reflexivity.
  - repeat (apply Forall_cons; [intros _; vm_compute; auto|]).
    apply Forall_nil.
  - reflexivity.
  - unfold in_range; cbn; lia.
  - unfold in_range; cbn; lia.
  - unfold in_range; cbn; lia.
Defined.

Lemma py_index_four {A} (a b c d : A) :
  py_index [a; b; c; d] 0 = Ok a /\ py_index [a; b; c; d] 1 = Ok b
  /\ py_index [a; b; c; d] 2 = Ok c /\ py_index [a; b; c; d] 3 = Ok d.
Proof. repeat split. Qed.

(** The gadget on the diamond, gate by gate. *)
Lemma heavy_hex_measure_x_4 lat qX f0 f1 d0 d1 d2 d3 es0 es1 :
  type_of lat qX = Ok AncillaNode ->
  dict_get (graph lat) qX = Ok [mkEdge f0 true; mkEdge f1 true] ->
  dict_get (graph lat) f0 = Ok es0 ->
  dict_get (graph lat) f1 = Ok es1 ->
  far_side qX es0 = [d0; d1] ->
  far_side qX es1 = [d2; d3] ->
  Forall (fun d => type_of lat d = Ok DataNode) [d0; d1; d2; d3] ->
  Forall (in_range (len_nodes lat)) [qX; f0; f1; d0; d1; d2; d3] ->
  HeavyHexCode._measure_x_4 lat qX =
  Ok (mkInstruction "measure_x_4" (len_nodes lat) 3
        (built_measure_x_4 qX f0 f1 d0 d1 d2 d3)).
Proof.
  intros Hty Hget Hg0 Hg1 Hs0 Hs1 Hdata Hrange.
  inversion Hrange as [|? ? HqX Hr1]; subst.
  inversion Hr1 as [|? ? Hf0 Hr2]; subst.
  inversion Hr2 as [|? ? Hf1 Hr3]; subst.
  inversion Hr3 as [|? ? Hd0 Hr4]; subst.
  inversion Hr4 as [|? ? Hd1 Hr5]; subst.
  inversion Hr5 as [|? ? Hd2 Hr6]; subst.
  inversion Hr6 as [|? ? Hd3 _]; subst.
  unfold HeavyHexCode._measure_x_4.
  rewrite Hty. cbn [bind Role_eqb assert]. rewrite Hget. cbn [bind].
  cbn [active_nodes filter active map node foldM].
  rewrite Hg0. cbn [bind].
  rewrite flag_side_fold
    by (rewrite Hs0; inversion Hdata as [|? ? ? Hd]; inversion Hd; auto).
  cbn [bind app]. rewrite Hg1. cbn [bind].
  rewrite flag_side_fold
    by (rewrite Hs1; inversion Hdata as [|? ? ? Hd]; inversion Hd; auto).
  cbn [bind]. rewrite Hs0, Hs1. cbn [app].
  destruct (py_index_four d0 d1 d2 d3) as (-> & -> & -> & ->).
  rewrite py_index_0, py_index_1.
  unfold Constrained.reset, Constrained.h.
  rewrite on_qubits_ok by in_circuit_range. cbn [bind].
  rewrite on_qubits_ok by in_circuit_range. cbn [bind].
  rewrite on_qubits_ok by in_circuit_range. cbn [bind].
  do 8 (rewrite cx_ok by in_circuit_range; cbn [bind]).
  rewrite measure_ok;
    [ | reflexivity | in_circuit_range
      | cbn [num_clbits emit emit_all Constrained.new];
        repeat (apply Forall_cons; [unfold in_range; lia|]);
        apply Forall_nil ].
  cbn [bind]. rewrite on_qubits_ok by in_circuit_range. cbn [bind].
  rewrite measure1_ok by in_circuit_range. cbn [bind].
  reflexivity.
Qed.

(** C2, as the code has it: on the diamond around the ancilla [qX]
    (active flags [f0] then [f1]; data nodes [d0], [d1] beyond [f0]
    and [d2], [d3] beyond [f1], in the order they are met),
    [_measure_x_4] is: reset ancilla, Hadamard ancilla, reset both
    flags, CNOT ancilla to [f1] then to [f0], then CNOT [f1] to its
    first data neighbour, [f0] to its second, [f1] to its second,
    [f0] to its first, then CNOT ancilla to [f1] and to [f0] again,
    then measure [f0] and [f1], Hadamard and measure the ancilla; in
    round [j] the three measurements land at the bits
    [node + j * num_nodes] of [f0], [f1] and the ancilla. *)
Theorem heavy_hex_measure_x_4_sequence
        (lat : Lattice) (j : Z) (qc : Circuit)
        (qX f0 f1 d0 d1 d2 d3 : Z) (es0 es1 : list Edge) :
  type_of lat qX = Ok AncillaNode ->
  type_of lat f0 = Ok FlagNode ->
  dict_get (graph lat) qX = Ok [mkEdge f0 true; mkEdge f1 true] ->
  dict_get (graph lat) f0 = Ok es0 ->
  dict_get (graph lat) f1 = Ok es1 ->
  far_side qX es0 = [d0; d1] ->
  far_side qX es1 = [d2; d3] ->
  Forall (fun d => type_of lat d = Ok DataNode) [d0; d1; d2; d3] ->
  Forall (in_range (len_nodes lat)) [qX; f0; f1; d0; d1; d2; d3] ->
  num_qubits qc = len_nodes lat ->
  num_clbits qc = (j + 1) * len_nodes lat ->
  0 <= j ->
  let inst := mkInstruction "measure_x_4" (len_nodes lat) 3
                (built_measure_x_4 qX f0 f1 d0 d1 d2 d3) in
  HeavyHexCode._measure_x_4 lat qX = Ok inst
  /\ HeavyHexCode.visit lat j qc qX =
     Ok (emit (OAppend inst (py_range (len_nodes lat))
                       [f0 + j * len_nodes lat;
                        f1 + j * len_nodes lat;
                        qX + j * len_nodes lat]) qc).
Proof.
  intros Hty Htf Hget Hg0 Hg1 Hs0 Hs1 Hdata Hrange Hnq Hnc Hj inst.
  assert (Hinst : HeavyHexCode._measure_x_4 lat qX = Ok inst)
    by (now apply (heavy_hex_measure_x_4 lat qX f0 f1 d0 d1 d2 d3 es0 es1)).
  split; [exact Hinst|].
  unfold HeavyHexCode.visit. rewrite Hty. cbn [bind Role_eqb].
  unfold HeavyHexCode.visit_ancilla. rewrite Hget. cbn [bind].
  rewrite py_index_0, py_index_1. cbn [bind node].
  rewrite Htf. cbn [bind Role_eqb]. rewrite Hinst. cbn [bind].
  apply append_ok.
  - rewrite Hnq. apply py_range_in_range.
  - rewrite Hnc.
    inversion Hrange as [|? ? HqX Hr1]; subst.
    inversion Hr1 as [|? ? Hf0 Hr2]; subst.
    inversion Hr2 as [|? ? Hf1 _]; subst.
    unfold in_range in *.
    repeat (apply Forall_cons; [nia|]). apply Forall_nil.
Qed.

Lemma heavy_hex_measure_x_4_sequence_witness :
  let qc := mkCircuit 7 7 [OAddRegister 7] in
  HeavyHexCode._measure_x_4 diamond 6 =
    Ok (mkInstruction "measure_x_4" 7 3 (built_measure_x_4 6 4 5 0 1 2 3))
  /\ HeavyHexCode.visit diamond 0 qc 6 =
     Ok (emit (OAppend
                 (mkInstruction "measure_x_4" 7 3
                                (built_measure_x_4 6 4 5 0 1 2 3))
                 (py_range 7) [4; 5; 6]) qc).
Proof.
  intros qc.
  apply (heavy_hex_measure_x_4_sequence
           diamond 0 qc 6 4 5 0 1 2 3
           (on_edges [0; 6; 1]) (on_edges [2; 6; 3])).
  - reflexivity.
  - reflexivity.
  - reflexivity.
  - reflexivity.
  - reflexivity.
  - reflexivity.
  - reflexivity.
  - repeat (apply Forall_cons; [reflexivity|]). apply Forall_nil.
  - repeat (apply Forall_cons; [unfold in_range; cbn; lia|]).
    apply Forall_nil.
  - reflexivity.
  - reflexivity.
  - lia.
Defined.

(** C2 as stated fails on the diamond: after the two CNOTs from the
    ancilla, the gadget has flag 0 (node 4) act on its second data
    neighbour (node 1) before its first (node 0). *)
Lemma measure_x_4_order_counterexample :
  HeavyHexCode._measure_x_4 diamond 6 =
    Ok (mkInstruction "measure_x_4" 7 3
          [GReset 6; GH 6; GReset 4; GReset 5;
           GCX 6 5; GCX 6 4;
           GCX 5 2; GCX 4 1; GCX 5 3; GCX 4 0;
           GCX 6 5; GCX 6 4;
           GMeasure 4 0; GMeasure 5 1; GH 6; GMeasure 6 2])
  /\ HeavyHexCode._measure_x_4 diamond 6 <>
     Ok (mkInstruction "measure_x_4" 7 3
           (claimed_measure_x_4 6 4 5 0 1 2 3)).
Proof.
  split; [reflexivity|]. vm_compute. discriminate.
Qed.

(** ** The dispatch on an ancilla *)

(** C3, as the code has it: for an ancilla [i] with at least two
    edge records, the first to a node of role [t1] and the second to
    a node of role [t2]: when [t1] is a data node and [t2] is one
    too, the [measure_x_2] gadget is built and appended; when [t1]
    is a data node and [t2] is not, the assertion fails; when [t1]
    is a flag, the [measure_x_4] gadget is built and appended,
    whatever [t2] is; for any other [t1] the node contributes
    nothing and nothing is raised. *)
Theorem heavy_hex_ancilla_dispatch
        (lat : Lattice) (j : Z) (qc : Circuit) (i : Z)
        (e0 e1 : Edge) (rest : list Edge) (t1 t2 : Role) :
  type_of lat i = Ok AncillaNode ->
  dict_get (graph lat) i = Ok (e0 :: e1 :: rest) ->
  type_of lat (node e0) = Ok t1 ->
  type_of lat (node e1) = Ok t2 ->
  HeavyHexCode.visit lat j qc i =
  match t1 with
  | DataNode =>
      match t2 with
      | DataNode =>
          inst <- HeavyHexCode._measure_x_2 lat i ;;
          Constrained.append inst (py_range (len_nodes lat))
                             [i + j * len_nodes lat] qc
      | _ => Raise AssertionError
      end
  | FlagNode =>
      inst <- HeavyHexCode._measure_x_4 lat i ;;
      Constrained.append inst (py_range (len_nodes lat))
                         [node e0 + j * len_nodes lat;
                          node e1 + j * len_nodes lat;
                          i + j * len_nodes lat] qc
  | _ => Ok qc
  end.
Proof.
  intros Hty Hget Ht1 Ht2.
  unfold HeavyHexCode.visit. rewrite Hty. cbn [bind Role_eqb].
  unfold HeavyHexCode.visit_ancilla. rewrite Hget. cbn [bind].
  rewrite py_index_0, py_index_1. cbn [bind].
  rewrite Ht1. cbn [bind].
  destruct t1; cbn [Role_eqb bind]; try reflexivity.
  rewrite Ht2. cbn [bind].
  destruct t2; cbn [Role_eqb assert bind]; try reflexivity.
  destruct (HeavyHexCode._measure_x_2 lat i) as [inst|e]; cbn [bind];
    [|reflexivity].
  destruct (Constrained.append _ _ _ qc); reflexivity.
Qed.

Lemma heavy_hex_ancilla_dispatch_witness :
  let qc := mkCircuit 3 3 [OAddRegister 3] in
  HeavyHexCode.visit dumbbell 0 qc 1 =
  Ok (emit (OAppend
              (mkInstruction "measure_x_2" 3 1
                             [GReset 1; GCX 1 2; GCX 1 0; GMeasure 1 0])
              (py_range 3) [1]) qc).
Proof.
  intros qc.
  rewrite (heavy_hex_ancilla_dispatch
             dumbbell 0 qc 1 (mkEdge 0 true) (mkEdge 2 true) []
             DataNode DataNode);
    reflexivity.
Defined.

(** C3 as stated fails: the ancilla of [stray] has two Z nodes for
    neighbours, and the circuit is built without it and without an
    exception. *)
Lemma ancilla_skipped_counterexample :
  type_of stray 1 = Ok AncillaNode
  /\ type_of stray 0 = Ok ZNode
  /\ type_of stray 2 = Ok ZNode
  /\ HeavyHexCode._circuit stray 1 =
     Ok (mkCircuit 3 3 [OAddRegister 3; OBarrier]).
Proof. repeat split. Qed.

(** * Further properties *)

(** ** More on routes *)

Lemma length_run a b : List.length (run a b) = S (Z.abs_nat (b - a)).
Proof.
  unfold run. destruct (Z.leb_spec a b);
    rewrite length_map, length_seq; lia.
Qed.

Lemma in_run_between a b x :
  In x (run a b) -> Z.min a b <= x <= Z.max a b.
Proof.
  unfold run. destruct (Z.leb_spec a b); intros Hin;
    apply in_map_iff in Hin; destruct Hin as [k [<- Hk]];
    apply in_seq in Hk; lia.
Qed.

Lemma length_l_path c1 c2 :
  List.length (l_path c1 c2)
  = S (Z.abs_nat (fst c2 - fst c1) + Z.abs_nat (snd c2 - snd c1)).
Proof.
  unfold l_path. rewrite length_app, !length_map, length_run.
  rewrite (run_cons (snd c1) (snd c2)).
  pose proof (length_run (snd c1) (snd c2)) as Hlen.
  rewrite (run_cons (snd c1) (snd c2)) in Hlen. cbn [List.length tl] in *.
  lia.
Qed.

(** [route] raises exactly on a lattice of width zero, by the
    division; for any other width it returns as many indices as the
    two nodes are columns and rows apart, plus one. *)
Theorem route_length_is_manhattan (lat : Lattice) (start end_ : Z) :
  match LQubit.route lat start end_ with
  | Ok p =>
      width lat <> 0
      /\ List.length p =
         S (Z.abs_nat (end_ mod width lat - start mod width lat)
            + Z.abs_nat (end_ / width lat - start / width lat))
  | Raise e => width lat = 0 /\ e = ZeroDivisionError
  end.
Proof.
  destruct (Z.eq_dec (width lat) 0) as [Hw|Hw].
  - unfold LQubit.route. rewrite Hw. cbn. now split.
  - rewrite route_spec by assumption. split; [assumption|].
    unfold spec_route. now rewrite length_map, length_l_path.
Qed.

Lemma spec_route_in_grid w h start end_ i :
  0 < w ->
  0 <= start < w * h -> 0 <= end_ < w * h ->
  In i (spec_route w start end_) -> 0 <= i < w * h.
Proof.
  intros Hw Hs He Hin.
  assert (Hh : 0 < h) by nia.
  pose proof (Z.mod_pos_bound start w Hw) as Hxs.
  pose proof (Z.mod_pos_bound end_ w Hw) as Hxe.
  assert (Hys : 0 <= start / w < h).
  { split; [apply Z.div_pos; lia|]. apply Z.div_lt_upper_bound; lia. }
  assert (Hye : 0 <= end_ / w < h).
  { split; [apply Z.div_pos; lia|]. apply Z.div_lt_upper_bound; lia. }
  unfold spec_route, l_path, coords in Hin. cbn [fst snd] in Hin.
  apply in_map_iff in Hin. destruct Hin as [[x y] [<- Hin]].
  unfold index_of. cbn [fst snd].
  apply in_app_or in Hin. destruct Hin as [Hin|Hin];
    apply in_map_iff in Hin; destruct Hin as [v [[= <- <-] Hv]].
  - apply in_run_between in Hv. nia.
  - assert (Hv' : In v (run (start / w) (end_ / w))).
    { rewrite run_cons. now right. }
    apply in_run_between in Hv'. nia.
Qed.

(** A route between two nodes of a [w] by [h] grid never leaves the
    grid. *)
Theorem route_stays_in_grid (lat : Lattice) (h start end_ : Z) :
  0 < width lat ->
  0 <= start < width lat * h ->
  0 <= end_ < width lat * h ->
  exists p,
    LQubit.route lat start end_ = Ok p
    /\ Forall (fun i => 0 <= i < width lat * h) p.
Proof.
  intros Hw Hs He. exists (spec_route (width lat) start end_). split.
  - apply route_spec. lia.
  - apply Forall_forall. intros i Hin.
    now apply (spec_route_in_grid (width lat) h start end_).
Qed.

Lemma route_stays_in_grid_witness :
  0 < width square5
  /\ 0 <= 3 < width square5 * 5
  /\ 0 <= 21 < width square5 * 5
  /\ exists p,
      LQubit.route square5 3 21 = Ok p
      /\ Forall (fun i => 0 <= i < width square5 * 5) p.
Proof.
  assert (Hw : 0 < width square5) by reflexivity.
  assert (Hs : 0 <= 3 < width square5 * 5) by (cbn; lia).
  assert (He : 0 <= 21 < width square5 * 5) by (cbn; lia).
  split; [exact Hw|]. split; [exact Hs|]. split; [exact He|].
  exact (route_stays_in_grid square5 5 3 21 Hw Hs He).
Defined.

Lemma NoDup_run a b : NoDup (run a b).
Proof.
  remember (Z.abs_nat (b - a)) as n eqn:Hn.
  revert a Hn. induction n as [|n IH]; intros a Hn.
  - assert (a = b) by lia. subst. rewrite run_refl.
    constructor; [intros []|constructor].
  - destruct (Z_lt_dec a b) as [Hlt|Hge].
    + rewrite run_up by lia. constructor; [|apply IH; lia].
      intros Hin. apply in_run_between in Hin. lia.
    + rewrite run_down by lia. constructor; [|apply IH; lia].
      intros Hin. apply in_run_between in Hin. lia.
Qed.

Lemma NoDup_map_injective {A B} (f : A -> B) l :
  (forall x y, In x l -> In y l -> f x = f y -> x = y) ->
  NoDup l -> NoDup (map f l).
Proof.
  intros Hinj Hnd. induction Hnd as [|x l Hx _ IH]; cbn; constructor.
  - intros Hin. apply in_map_iff in Hin. destruct Hin as [y [Heq Hy]].
    assert (y = x) by (apply Hinj; [now right | now left | exact Heq]).
    now subst.
  - apply IH. intros y z Hy Hz. apply Hinj; now right.
Qed.

Lemma NoDup_spec_route w start end_ :
  0 < w -> NoDup (spec_route w start end_).
Proof.
  intros Hw.
  pose proof (Z.mod_pos_bound start w Hw) as Hxs.
  pose proof (Z.mod_pos_bound end_ w Hw) as Hxe.
  unfold spec_route, l_path, coords. cbn [fst snd].
  rewrite map_app, !map_map. unfold index_of. cbn [fst snd].
  apply NoDup_app.
  - apply NoDup_map_injective; [intros; lia | apply NoDup_run].
  - apply NoDup_map_injective; [intros; nia|].
    pose proof (NoDup_run (start / w) (end_ / w)) as Hnd.
    rewrite run_cons in Hnd. now inversion Hnd.
  - intros i Hin1 Hin2.
    apply in_map_iff in Hin1. destruct Hin1 as [x [<- Hx]].
    apply in_map_iff in Hin2. destruct Hin2 as [y [Heq Hy]].
    apply in_run_between in Hx.
    assert (Hy' : y <> start / w).
    { pose proof (NoDup_run (start / w) (end_ / w)) as Hnd.
      rewrite run_cons in Hnd. inversion Hnd as [|? ? Hnin _]; subst.
      intros ->. contradiction. }
    apply Hy'. nia.
Qed.

(** A route visits no node twice. *)
Theorem route_has_no_repeats (lat : Lattice) (start end_ : Z) :
  0 < width lat ->
  exists p, LQubit.route lat start end_ = Ok p /\ NoDup p.
Proof.
  intros Hw. exists (spec_route (width lat) start end_). split.
  - apply route_spec. lia.
  - now apply NoDup_spec_route.
Qed.

Lemma route_has_no_repeats_witness :
  0 < width square5
  /\ exists p, LQubit.route square5 3 21 = Ok p /\ NoDup p.
Proof.
  assert (Hw : 0 < width square5) by reflexivity.
  split; [exact Hw|]. exact (route_has_no_repeats square5 3 21 Hw).
Defined.

(** ** The lattice after [move_cell] *)

(** A loop of switches over nodes of the lattice. *)
Lemma for_each_switch b l :
  forall lat,
    Forall (in_range (len_nodes lat)) l ->
    exists lat',
      for_each (fun i => switch_node i b) l lat = (Ok tt, lat')
      /\ len_nodes lat' = len_nodes lat
      /\ width lat' = width lat
      /\ (forall i, in_range (len_nodes lat) i ->
                    type_of lat' i = type_of lat i)
      /\ (forall i, in_range (len_nodes lat) i ->
                    activity lat' i =
                    if existsb (Z.eqb i) l then Ok b else activity lat i).
Proof.
  induction l as [|x l IH]; intros lat Hl.
  - exists lat. cbn. repeat split; reflexivity.
  - inversion Hl as [|? ? Hx Hl']; subst.
    destruct (switch_node_effect lat x b Hx)
      as (lat1 & Hrun1 & Hlen1 & Hw1 & _ & Hty1 & Hact1).
    destruct (IH lat1) as (lat2 & Hrun2 & Hlen2 & Hw2 & Hty2 & Hact2);
      [now rewrite Hlen1|].
    exists lat2. split; [|repeat split].
    + cbn [for_each]. unfold mbind, switch_node at 1.
      now rewrite Hrun1.
    + congruence.
    + congruence.
    + intros i Hi. rewrite Hty2 by (now rewrite Hlen1). now apply Hty1.
    + intros i Hi. rewrite Hact2 by (now rewrite Hlen1).
      rewrite Hact1 by assumption. cbn [existsb].
      destruct (i =? x), (existsb (Z.eqb i) l); reflexivity.
Qed.

Lemma route_ends_once w start end_ :
  0 < w ->
  spec_route w start end_ <> []
  /\ In end_ (spec_route w start end_)
  /\ ~ In end_ (removelast (spec_route w start end_)).
Proof.
  intros Hw. pose proof (NoDup_spec_route w start end_ Hw) as Hnd.
  unfold spec_route in *.
  destruct (l_path_ends (coords w start) (coords w end_)) as [init Hinit].
  rewrite Hinit in *. rewrite map_app in *. cbn [map] in *.
  rewrite index_of_coords in * by lia. repeat split.
  - now destruct (map (index_of w) init).
  - apply in_or_app. right. now left.
  - rewrite removelast_last. apply NoDup_remove_2 in Hnd.
    now rewrite app_nil_r in Hnd.
Qed.

(** [move_cell] between two nodes of a full [w] by [h] grid never
    fails in its own switching.  When it returns, every node of the
    route but the last is active and the last is inactive; when the
    cycle builder raises, the lattice is left either with the whole
    route inactive (first round) or in that same final state (second
    round).  No other node changes, and the last node of the route
    is not among the reactivated ones. *)
Theorem move_cell_lattice_effect
        (self : LQubit.LQubit) (cycle : Lattice -> Z -> result Circuit)
        (lat : Lattice) (h start end_ : Z) :
  0 < width lat ->
  len_nodes lat = width lat * h ->
  0 <= start < width lat * h ->
  0 <= end_ < width lat * h ->
  exists p,
    LQubit.route lat start end_ = Ok p
    /\ In end_ p
    /\ ~ In end_ (removelast p)
    /\ match LQubit.move_cell self cycle start end_ lat with
       | (Ok _, lat') => activity_set (removelast p) p lat lat'
       | (Raise _, lat') =>
           activity_set [] p lat lat'
           \/ activity_set (removelast p) p lat lat'
       end.
Proof.
  intros Hw Hlen Hs He.
  set (p := spec_route (width lat) start end_).
  assert (Hroute : LQubit.route lat start end_ = Ok p)
    by (apply route_spec; lia).
  destruct (route_ends_once (width lat) start end_ Hw) as (Hne & Hin & Hnin).
  fold p in Hne, Hin, Hnin.
  assert (Hp : Forall (in_range (len_nodes lat)) p).
  { apply Forall_forall. intros i Hi. unfold in_range. rewrite Hlen.
    now apply (spec_route_in_grid (width lat) h start end_). }
  assert (Hinit : Forall (in_range (len_nodes lat)) (removelast p)).
  { apply Forall_forall. intros i Hi. rewrite Forall_forall in Hp.
    apply Hp. rewrite (app_removelast_last 0 Hne).
    apply in_or_app. now left. }
  exists p. repeat split; try assumption.
  destruct (for_each_switch false p lat Hp)
    as (lat1 & Hrun1 & Hlen1 & Hw1 & Hty1 & Hact1).
  assert (Hoff : activity_set [] p lat lat1).
  { repeat split; assumption. }
  destruct (for_each_switch true (removelast p) lat1)
    as (lat2 & Hrun2 & Hlen2 & Hw2 & Hty2 & Hact2);
    [now rewrite Hlen1|].
  assert (Hon : activity_set (removelast p) p lat lat2).
  { repeat split; try congruence.
    - intros i Hi. rewrite Hty2 by (now rewrite Hlen1). now apply Hty1.
    - intros i Hi. rewrite Hact2 by (now rewrite Hlen1).
      now rewrite Hact1 by assumption. }
  unfold LQubit.move_cell, mbind, reading, ret.
  rewrite Hroute, Hrun1.
  destruct (cycle lat1 1) as [round1|e1]; [|now left].
  assert (Hpop : LQubit.pop p = Ok (removelast p)).
  { unfold LQubit.pop. destruct p; [contradiction | reflexivity]. }
  rewrite Hpop, Hrun2.
  destruct (cycle lat2 1) as [round2|e2]; [exact Hon | now right].
Qed.

Lemma move_cell_lattice_effect_witness :
  0 < width square5
  /\ len_nodes square5 = width square5 * 5
  /\ 0 <= 11 < width square5 * 5
  /\ 0 <= 13 < width square5 * 5
  /\ exists p,
      LQubit.route square5 11 13 = Ok p
      /\ In 13 p
      /\ ~ In 13 (removelast p)
      /\ match LQubit.move_cell zcut5 SurfaceCodeCycle._circuit 11 13 square5
         with
         | (Ok _, lat') => activity_set (removelast p) p square5 lat'
         | (Raise _, lat') =>
             activity_set [] p square5 lat'
             \/ activity_set (removelast p) p square5 lat'
         end.
Proof.
  assert (Hw : 0 < width square5) by reflexivity.
  assert (Hlen : len_nodes square5 = width square5 * 5) by reflexivity.
  assert (Hs : 0 <= 11 < width square5 * 5) by (cbn; lia).
  assert (He : 0 <= 13 < width square5 * 5) by (cbn; lia).
  split; [exact Hw|]. split; [exact Hlen|].
  split; [exact Hs|]. split; [exact He|].
  exact (move_cell_lattice_effect zcut5 SurfaceCodeCycle._circuit
                                  square5 5 11 13 Hw Hlen Hs He).
Defined.

(** ** Two switches and back *)

Lemma lattice_ext lat lat' :
  len_nodes lat' = len_nodes lat ->
  width lat' = width lat ->
  graph lat' = graph lat ->
  (forall i, in_range (len_nodes lat) i -> type_of lat' i = type_of lat i) ->
  (forall i, in_range (len_nodes lat) i -> activity lat' i = activity lat i) ->
  lat' = lat.
Proof.
  intros Hlen Hw Hg Hty Hact.
  destruct lat as [ns g w], lat' as [ns' g' w'].
  cbn [width graph] in Hw, Hg. subst. f_equal.
  unfold len_nodes in *. cbn [nodes] in *.
  apply nth_error_ext. intros k.
  destruct (Nat.lt_ge_cases k (List.length ns)) as [Hlt|Hge].
  - assert (Hi : in_range (Z.of_nat (List.length ns)) (Z.of_nat k))
      by (unfold in_range; lia).
    specialize (Hty _ Hi). specialize (Hact _ Hi).
    unfold type_of, activity in Hty, Hact. cbn [nodes] in Hty, Hact.
    rewrite !py_index_nth in Hty, Hact
      by (rewrite ?Hlen; exact Hi).
    rewrite Nat2Z.id in Hty, Hact.
    destruct (nth_error ns' k) as [[r' b']|] eqn:H1;
      destruct (nth_error ns k) as [[r b]|] eqn:H2;
      cbn in Hty, Hact; try discriminate; try reflexivity.
    congruence.
  - assert (Hge' : (List.length ns' <= k)%nat) by lia.
    apply nth_error_None in Hge, Hge'. congruence.
Qed.

Lemma recache2_undo m a k :
  (node k = m \/ node k = a -> active k = true) ->
  recache2 m a true (recache2 m a false k) = k.
Proof.
  destruct k as [n b]. unfold recache2. cbn [node active]. intros H.
  destruct (Z.eqb_spec n m) as [Hm|Hm];
    destruct (Z.eqb_spec n a) as [Ha|Ha]; cbn [orb node].
  - rewrite Hm at 1. rewrite Z.eqb_refl. cbn [orb]. f_equal.
    symmetry. apply H. now left.
  - rewrite Hm at 1. rewrite Z.eqb_refl. cbn [orb]. f_equal.
    symmetry. apply H. now left.
  - destruct (Z.eqb_spec n m); [contradiction|].
    rewrite Ha at 1. rewrite Z.eqb_refl. cbn [orb]. f_equal.
    symmetry. apply H. now right.
  - destruct (Z.eqb_spec n m); [contradiction|].
    destruct (Z.eqb_spec n a); [contradiction|]. reflexivity.
Qed.

(** ** The edge records after two switches *)

Lemma dict_get_map {V} (f : V -> V) (d : list (Z * V)) k :
  dict_get (map (fun kv => (fst kv, f (snd kv))) d) k
  = result_map f (dict_get d k).
Proof.
  induction d as [|[k' v] d IH]; [reflexivity|].
  cbn. destruct (k =? k'); [reflexivity | exact IH].
Qed.

Lemma active_nodes_recache2 m a edges :
  active_nodes (map (recache2 m a false) edges)
  = filter (fun i => negb ((i =? m) || (i =? a))) (active_nodes edges).
Proof.
  unfold active_nodes. induction edges as [|[n b] edges IH]; [reflexivity|].
  cbn [map].
  assert (Hk : recache2 m a false (mkEdge n b)
               = if (n =? m) || (n =? a) then mkEdge n false else mkEdge n b)
    by reflexivity.
  rewrite Hk. clear Hk.
  destruct ((n =? m) || (n =? a)) eqn:Hn.
  - cbn [filter active]. rewrite IH. destruct b; [|reflexivity].
    cbn [map filter node]. now rewrite Hn.
  - destruct b; cbn [map filter node active]; rewrite ?Hn; cbn [negb];
      now rewrite IH.
Qed.

Lemma node_recache2 m a b k : node (recache2 m a b k) = node k.
Proof. unfold recache2. now destruct ((node k =? m) || (node k =? a)). Qed.

(** Switching nodes keeps a well-formed lattice well formed. *)
Lemma switched_lattice_ok m a b lat lat' :
  switched m a b lat lat' -> lattice_ok lat -> lattice_ok lat'.
Proof.
  intros (Hlen & _ & Hg & _ & _) (Hnd & Hkeys & Hedges).
  assert (Hk : keys (graph lat') = keys (graph lat)).
  { rewrite Hg. unfold keys. rewrite map_map. reflexivity. }
  unfold lattice_ok. rewrite Hk, Hlen. split; [|split].
  - exact Hnd.
  - exact Hkeys.
  - rewrite Hg. apply Forall_forall. intros kv Hin.
    apply in_map_iff in Hin. destruct Hin as [[key es] [<- Hin]].
    cbn [fst snd]. rewrite Forall_forall in Hedges.
    specialize (Hedges _ Hin). cbn [snd] in Hedges.
    apply Forall_forall. intros k Hk'.
    apply in_map_iff in Hk'. destruct Hk' as [k0 [<- Hk0]].
    rewrite node_recache2. rewrite Forall_forall in Hedges.
    now apply Hedges.
Qed.

(** ** More on the gadgets of the heavy-hex code *)

(** The gadget on an ancilla between data nodes: reset, CNOT from the
    ancilla into its second active neighbour, then into its first,
    measure.  Active neighbours beyond the second are left out. *)
Theorem heavy_hex_measure_x_2_sequence
        (lat : Lattice) (qX d0 d1 : Z) (edges : list Edge) (rest : list Z) :
  type_of lat qX = Ok AncillaNode ->
  dict_get (graph lat) qX = Ok edges ->
  active_nodes edges = d0 :: d1 :: rest ->
  in_range (len_nodes lat) qX ->
  in_range (len_nodes lat) d0 ->
  in_range (len_nodes lat) d1 ->
  HeavyHexCode._measure_x_2 lat qX =
  Ok (mkInstruction "measure_x_2" (len_nodes lat) 1
        [GReset qX; GCX qX d1; GCX qX d0; GMeasure qX 0]).
Proof.
  intros Hty Hget Hact Hq H0 H1.
  unfold HeavyHexCode._measure_x_2.
  rewrite Hty. cbn [bind Role_eqb assert]. rewrite Hget. cbn [bind].
  unfold Constrained.reset.
  rewrite on_qubits_ok by in_circuit_range. cbn [bind].
  rewrite Hact, py_index_1. cbn [bind].
  rewrite cx_ok by in_circuit_range. cbn [bind].
  rewrite py_index_0. cbn [bind].
  rewrite cx_ok by in_circuit_range. cbn [bind].
  rewrite measure1_ok by in_circuit_range. cbn [bind].
  reflexivity.
Qed.

Lemma heavy_hex_measure_x_2_sequence_witness :
  HeavyHexCode._measure_x_2 dumbbell 1 =
  Ok (mkInstruction "measure_x_2" 3 1
        [GReset 1; GCX 1 2; GCX 1 0; GMeasure 1 0]).
Proof.
  apply (heavy_hex_measure_x_2_sequence
           dumbbell 1 0 2 (on_edges [0; 2]) []).
  - reflexivity.
  - reflexivity.
  - reflexivity.
  - unfold in_range; cbn; lia.
  - unfold in_range; cbn; lia.
  - unfold in_range; cbn; lia.
Defined.

Lemma dict_get_missing {V} (d : list (Z * V)) k :
  ~ In k (keys d) -> dict_get d k = Raise KeyError.
Proof.
  induction d as [|[k' v] d IH]; intros Hnin; [reflexivity|].
  cbn in *. destruct (Z.eqb_spec k k') as [->|Hne].
  - exfalso. apply Hnin. now left.
  - apply IH. intros Hin. apply Hnin. now right.
Qed.

Lemma py_index_1_short {A} (l : list A) :
  (List.length l < 2)%nat -> py_index l 1 = Raise IndexError.
Proof.
  destruct l as [|x [|y l]]; cbn [List.length]; intros Hlen;
    [reflexivity | reflexivity | lia].
Qed.

(** What [_measure_x_2] refuses: a node that is not an ancilla fails
    the assertion; an ancilla that is not a key of the graph is a
    [KeyError]; an ancilla with fewer than two active neighbours is
    an [IndexError]. *)
Theorem heavy_hex_measure_x_2_rejects (lat : Lattice) (qX : Z) (r : Role) :
  type_of lat qX = Ok r ->
  (r <> AncillaNode ->
   HeavyHexCode._measure_x_2 lat qX = Raise AssertionError)
  /\ (r = AncillaNode -> ~ In qX (keys (graph lat)) ->
      HeavyHexCode._measure_x_2 lat qX = Raise KeyError)
  /\ (r = AncillaNode ->
      forall edges,
        dict_get (graph lat) qX = Ok edges ->
        in_range (len_nodes lat) qX ->
        (List.length (active_nodes edges) < 2)%nat ->
        HeavyHexCode._measure_x_2 lat qX = Raise IndexError).
Proof.
  intros Hty. unfold HeavyHexCode._measure_x_2. rewrite Hty. cbn [bind].
  split; [|split].
  - intros Hr. destruct r; try reflexivity. contradiction.
  - intros -> Hnin. cbn [Role_eqb assert bind].
    now rewrite dict_get_missing.
  - intros -> edges Hget Hq Hlen. cbn [Role_eqb assert bind].
    rewrite Hget. cbn [bind]. unfold Constrained.reset.
    rewrite on_qubits_ok by in_circuit_range. cbn [bind].
    now rewrite py_index_1_short.
Qed.

Lemma heavy_hex_measure_x_2_rejects_witness :
  HeavyHexCode._measure_x_2 dumbbell 0 = Raise AssertionError.
Proof.
  apply (heavy_hex_measure_x_2_rejects dumbbell 0 DataNode).
  - reflexivity.
  - discriminate.
Defined.

(** A flag with an active neighbour that is neither a data node nor
    an ancilla fails the assertion of the loop, wherever in the list
    of neighbours it stands. *)
Lemma data_side_rejects lat edges :
  Forall (fun k => active k = true ->
                   exists r, type_of lat (node k) = Ok r) edges ->
  Exists (fun k => active k = true
                   /\ exists r, type_of lat (node k) = Ok r
                                /\ r <> DataNode /\ r <> AncillaNode) edges ->
  forall acc,
    foldM (HeavyHexCode.data_side lat) edges acc = Raise AssertionError.
Proof.
  induction 1 as [|k edges Hk Hrest IH]; intros Hex acc.
  - inversion Hex.
  - cbn [foldM]. unfold HeavyHexCode.data_side at 1.
    destruct (active k) eqn:Hact.
    + destruct (Hk eq_refl) as [r Hr]. rewrite Hr. cbn [bind].
      destruct r; cbn [Role_eqb negb assert bind]; try reflexivity.
      * apply IH. inversion Hex as [? ? (_ & r' & Hr' & Hd & _)|]; subst;
          [congruence | assumption].
      * apply IH. inversion Hex as [? ? (_ & r' & Hr' & _ & Ha)|]; subst;
          [congruence | assumption].
    + cbn [bind]. apply IH.
      inversion Hex as [? ? (Htrue & _)|]; subst; [congruence | assumption].
Qed.

(** The heavy-hex [_measure_z] on a flag that has, among its active
    neighbours, a node that is neither a data node nor an ancilla
    raises [AssertionError]. *)
Theorem heavy_hex_measure_z_foreign_neighbour
        (lat : Lattice) (q : Z) (edges : list Edge) :
  type_of lat q = Ok FlagNode ->
  dict_get (graph lat) q = Ok edges ->
  Forall (fun k => active k = true ->
                   exists r, type_of lat (node k) = Ok r) edges ->
  Exists (fun k => active k = true
                   /\ exists r, type_of lat (node k) = Ok r
                                /\ r <> DataNode /\ r <> AncillaNode) edges ->
  HeavyHexCode._measure_z lat q = Raise AssertionError.
Proof.
  intros Hty Hget Hall Hex. unfold HeavyHexCode._measure_z.
  rewrite Hty. cbn [bind Role_eqb assert]. rewrite Hget. cbn [bind].
  now rewrite data_side_rejects.
Qed.

Lemma heavy_hex_measure_z_foreign_neighbour_witness :
  HeavyHexCode._measure_z crooked 1 = Raise AssertionError.
Proof.
  apply (heavy_hex_measure_z_foreign_neighbour crooked 1 (on_edges [0; 2; 3])).
  - reflexivity.
  - reflexivity.
  - repeat (apply Forall_cons; [intros _; eexists; reflexivity|]).
    apply Forall_nil.
  - apply Exists_cons_tl, Exists_cons_hd. split; [reflexivity|].
    exists ZNode. repeat split; discriminate.
Defined.

(** A flag left with fewer than two active data neighbours makes
    [_measure_z] raise [IndexError]. *)
Theorem heavy_hex_measure_z_too_few
        (lat : Lattice) (q : Z) (edges : list Edge) :
  type_of lat q = Ok FlagNode ->
  dict_get (graph lat) q = Ok edges ->
  Forall (fun k => active k = true ->
                   type_of lat (node k) = Ok DataNode
                   \/ type_of lat (node k) = Ok AncillaNode) edges ->
  (List.length (data_neighbours lat edges) < 2)%nat ->
  in_range (len_nodes lat) q ->
  HeavyHexCode._measure_z lat q = Raise IndexError.
Proof.
  intros Hty Hget Hshape Hlen Hq. unfold HeavyHexCode._measure_z.
  rewrite Hty. cbn [bind Role_eqb assert]. rewrite Hget. cbn [bind].
  rewrite data_side_fold by assumption. cbn [app bind].
  unfold Constrained.reset.
  rewrite on_qubits_ok by in_circuit_range. cbn [bind].
  now rewrite py_index_1_short.
Qed.

Lemma heavy_hex_measure_z_too_few_witness :
  HeavyHexCode._measure_z dented 4 = Raise IndexError.
Proof.
  apply (heavy_hex_measure_z_too_few
           dented 4 [mkEdge 0 true; mkEdge 6 true; mkEdge 1 false]).
  - reflexivity.
  - reflexivity.
  - apply Forall_cons; [intros _; left; reflexivity|].
    apply Forall_cons; [intros _; right; reflexivity|].
    apply Forall_cons; [discriminate|]. apply Forall_nil.
  - apply Nat.ltb_lt. reflexivity.
  - unfold in_range; vm_compute; split; [discriminate | reflexivity].
Defined.

(** ** Builders: no cycles, and the shape of what comes back *)

Lemma py_range_nonpositive n : n <= 0 -> py_range n = [].
Proof.
  intros Hn. unfold py_range. now replace (Z.to_nat n) with 0%nat by lia.
Qed.

(** With [num_cycles] zero or negative both builders return the empty
    circuit on [num_nodes] qubits, without a classical bit and without
    looking at the lattice any further. *)
Theorem circuits_without_cycles (lat : Lattice) (num_cycles : Z) :
  num_cycles <= 0 ->
  SurfaceCodeCycle._circuit lat num_cycles
  = Ok (mkCircuit (len_nodes lat) 0 [])
  /\ HeavyHexCode._circuit lat num_cycles
     = Ok (mkCircuit (len_nodes lat) 0 []).
Proof.
  intros Hn. unfold SurfaceCodeCycle._circuit, HeavyHexCode._circuit.
  rewrite py_range_nonpositive by assumption. now split.
Qed.

Lemma circuits_without_cycles_witness :
  -2 <= 0
  /\ SurfaceCodeCycle._circuit stray (-2) = Ok (mkCircuit 3 0 [])
  /\ HeavyHexCode._circuit stray (-2) = Ok (mkCircuit 3 0 []).
Proof.
  split; [lia|]. apply (circuits_without_cycles stray (-2)). lia.
Defined.

Lemma bind_Ok {A B} (m : result A) (k : A -> result B) b :
  bind m k = Ok b -> exists a, m = Ok a /\ k a = Ok b.
Proof. destruct m as [a|e]; cbn; [now exists a | discriminate]. Qed.

Lemma append_shape inst qargs cargs qc qc' :
  Constrained.append inst qargs cargs qc = Ok qc' ->
  qc' = emit_all [OAppend inst qargs cargs] qc.
Proof.
  unfold Constrained.append.
  destruct (forallb _ qargs && forallb _ cargs); cbn; [|discriminate].
  now intros [= <-].
Qed.

(** A step of the heavy-hex node loop adds appended gadgets and
    nothing else. *)
Lemma heavy_visit_shape lat j qc i qc' :
  HeavyHexCode.visit lat j qc i = Ok qc' ->
  exists ops, qc' = emit_all ops qc /\ Forall (fun o => is_append o = true) ops.
Proof.
  unfold HeavyHexCode.visit. intros H.
  apply bind_Ok in H. destruct H as (ty & _ & H).
  apply bind_Ok in H. destruct H as (qc1 & H1 & H).
  assert (Hqc1 : exists ops, qc1 = emit_all ops qc
                             /\ Forall (fun o => is_append o = true) ops).
  { destruct (Role_eqb ty FlagNode).
    - apply bind_Ok in H1. destruct H1 as (inst & _ & H1).
      apply append_shape in H1. eexists. split; [exact H1|].
      now repeat constructor.
    - injection H1 as <-. exists []. split; [now rewrite emit_all_nil|].
      constructor. }
  destruct Hqc1 as (ops1 & -> & Hops1).
  destruct (Role_eqb ty AncillaNode).
  - unfold HeavyHexCode.visit_ancilla in H.
    apply bind_Ok in H. destruct H as (edges & _ & H).
    apply bind_Ok in H. destruct H as (e0 & _ & H).
    apply bind_Ok in H. destruct H as (e1 & _ & H).
    apply bind_Ok in H. destruct H as (t1 & _ & H).
    apply bind_Ok in H. destruct H as (qc2 & H2 & H).
    assert (Hqc2 : exists ops, qc2 = emit_all ops qc
                               /\ Forall (fun o => is_append o = true) ops).
    { destruct (Role_eqb t1 DataNode).
      - apply bind_Ok in H2. destruct H2 as (t2 & _ & H2).
        apply bind_Ok in H2. destruct H2 as (u & _ & H2).
        apply bind_Ok in H2. destruct H2 as (inst & _ & H2).
        apply append_shape in H2. rewrite emit_all_emit_all in H2.
        eexists. split; [exact H2|].
        apply Forall_app. split; [exact Hops1 | now repeat constructor].
      - injection H2 as <-. now exists ops1. }
    destruct Hqc2 as (ops2 & -> & Hops2).
    apply bind_Ok in H. destruct H as (t1' & _ & H).
    destruct (Role_eqb t1' FlagNode).
    + apply bind_Ok in H. destruct H as (inst & _ & H).
      apply append_shape in H. rewrite emit_all_emit_all in H.
      eexists. split; [exact H|].
      apply Forall_app. split; [exact Hops2 | now repeat constructor].
    + injection H as <-. now exists ops2.
  - injection H as <-. now exists ops1.
Qed.

Lemma heavy_visits_shape lat j l :
  forall qc qc',
    foldM (HeavyHexCode.visit lat j) l qc = Ok qc' ->
    exists ops,
      qc' = emit_all ops qc /\ Forall (fun o => is_append o = true) ops.
Proof.
  induction l as [|i l IH]; intros qc qc' H.
  - injection H as <-. exists []. split; [now rewrite emit_all_nil|].
    constructor.
  - cbn [foldM] in H. apply bind_Ok in H. destruct H as (qc1 & H1 & H).
    apply heavy_visit_shape in H1. destruct H1 as (ops1 & -> & Hops1).
    apply IH in H. destruct H as (ops2 & -> & Hops2).
    rewrite emit_all_emit_all. eexists. split; [reflexivity|].
    apply Forall_app. now split.
Qed.

Lemma filter_none {A} (f : A -> bool) l :
  Forall (fun o => f o = false) l -> filter f l = [].
Proof.
  induction 1 as [|o l Ho _ IH]; [reflexivity|]. cbn. now rewrite Ho.
Qed.

Lemma gates_none l :
  Forall (fun o => is_append o = true) l -> gates l = [].
Proof.
  induction 1 as [|o l Ho _ IH]; [reflexivity|].
  destruct o; try discriminate. exact IH.
Qed.

Lemma heavy_rounds_shape lat js :
  forall qc qc',
    foldM (HeavyHexCode.round lat) js qc = Ok qc' ->
    num_qubits qc' = num_qubits qc
    /\ num_clbits qc'
       = num_clbits qc + Z.of_nat (List.length js) * len_nodes lat
    /\ filter is_register (data qc')
       = filter is_register (data qc)
           ++ repeat (OAddRegister (len_nodes lat)) (List.length js)
    /\ filter is_barrier (data qc')
       = filter is_barrier (data qc) ++ repeat OBarrier (List.length js)
    /\ gates (data qc') = gates (data qc).
Proof.
  induction js as [|j js IH]; intros qc qc' H.
  - injection H as <-. cbn. rewrite !app_nil_r. repeat split. lia.
  - cbn [foldM] in H. apply bind_Ok in H. destruct H as (qc1 & H1 & H).
    unfold HeavyHexCode.round, Constrained.add_register in H1.
    cbn [bind] in H1. apply bind_Ok in H1. destruct H1 as (qc2 & H2 & H1).
    apply heavy_visits_shape in H2. destruct H2 as (ops & -> & Hops).
    unfold Constrained.barrier in H1. injection H1 as <-.
    apply IH in H. destruct H as (Hq & Hc & Hr & Hb & Hg).
    cbn [emit emit_all num_qubits num_clbits data] in *.
    assert (Hnr : filter is_register ops = []).
    { apply filter_none. eapply Forall_impl; [|exact Hops].
      intros o Ho. now destruct o. }
    assert (Hnb : filter is_barrier ops = []).
    { apply filter_none. eapply Forall_impl; [|exact Hops].
      intros o Ho. now destruct o. }
    repeat split.
    + exact Hq.
    + rewrite Hc. cbn [List.length]. lia.
    + rewrite Hr, !filter_app, Hnr. cbn [filter is_register].
      rewrite !app_nil_r, <- app_assoc. reflexivity.
    + rewrite Hb, !filter_app, Hnb. cbn [filter is_barrier].
      rewrite <- !app_assoc. reflexivity.
    + rewrite Hg, !gates_app, (gates_none ops Hops). cbn.
      now rewrite !app_nil_r.
Qed.

(** Whatever the lattice, a circuit the heavy-hex builder returns
    for [num_cycles >= 0] has [num_nodes] qubits,
    [num_cycles * num_nodes] classical bits, exactly [num_cycles]
    registers of width [num_nodes], exactly [num_cycles] barriers,
    and no gate outside an appended gadget. *)
Theorem heavy_hex_circuit_shape (lat : Lattice) (num_cycles : Z) (qc : Circuit) :
  0 <= num_cycles ->
  HeavyHexCode._circuit lat num_cycles = Ok qc ->
  num_qubits qc = len_nodes lat
  /\ num_clbits qc = num_cycles * len_nodes lat
  /\ filter is_register (data qc)
     = repeat (OAddRegister (len_nodes lat)) (Z.to_nat num_cycles)
  /\ filter is_barrier (data qc) = repeat OBarrier (Z.to_nat num_cycles)
  /\ gates (data qc) = [].
Proof.
  intros Hn H. unfold HeavyHexCode._circuit in H.
  apply heavy_rounds_shape in H. destruct H as (Hq & Hc & Hr & Hb & Hg).
  unfold py_range in *. rewrite length_map, length_seq in *.
  cbn [Constrained.new num_qubits num_clbits data filter gates app] in *.
  repeat split; try assumption.
  rewrite Hc, Z2Nat.id by assumption. apply Z.add_0_l.
Qed.

Lemma heavy_hex_circuit_shape_witness :
  exists qc,
    HeavyHexCode._circuit diamond 2 = Ok qc
    /\ num_qubits qc = 7
    /\ num_clbits qc = 14
    /\ filter is_register (data qc) = [OAddRegister 7; OAddRegister 7]
    /\ filter is_barrier (data qc) = [OBarrier; OBarrier]
    /\ gates (data qc) = [].
Proof.
  eexists. split; [vm_compute; reflexivity|].
  apply (heavy_hex_circuit_shape diamond 2); [lia | vm_compute; reflexivity].
Defined.

(** ** The classical bit of a flag *)

(** In a heavy-hex round the classical bit of a flag is written
    twice: by the flag's own [measure_z] gadget, and again by the
    [measure_x_4] gadget of the ancilla that has the flag as its
    first neighbour, whose first classical bit is mapped onto it. *)
Theorem flag_bit_written_twice
        (lat : Lattice) (j : Z) (qc qc' : Circuit) (qX f0 : Z)
        (e0 e1 : Edge) (rest : list Edge) (instz inst4 : Instruction) :
  type_of lat f0 = Ok FlagNode ->
  type_of lat qX = Ok AncillaNode ->
  dict_get (graph lat) qX = Ok (e0 :: e1 :: rest) ->
  node e0 = f0 ->
  HeavyHexCode._measure_z lat f0 = Ok instz ->
  HeavyHexCode._measure_x_4 lat qX = Ok inst4 ->
  Forall (in_range (len_nodes lat)) [f0; node e1; qX] ->
  0 <= j ->
  num_qubits qc = len_nodes lat ->
  num_clbits qc = (j + 1) * len_nodes lat ->
  num_qubits qc' = len_nodes lat ->
  num_clbits qc' = (j + 1) * len_nodes lat ->
  exists oz o4,
    HeavyHexCode.visit lat j qc f0 = Ok (emit oz qc)
    /\ HeavyHexCode.visit lat j qc' qX = Ok (emit o4 qc')
    /\ oz = OAppend instz (py_range (len_nodes lat)) [f0 + j * len_nodes lat]
    /\ o4 = OAppend inst4 (py_range (len_nodes lat))
                    [f0 + j * len_nodes lat;
                     node e1 + j * len_nodes lat;
                     qX + j * len_nodes lat]
    /\ measures_into (f0 + j * len_nodes lat) oz = true
    /\ measures_into (f0 + j * len_nodes lat) o4 = true.
Proof.
  intros Hf HX Hget He0 Hz H4 Hrange Hj Hnq Hnc Hnq' Hnc'.
  inversion Hrange as [|? ? Hf0 Hr1]; subst.
  inversion Hr1 as [|? ? He1 Hr2]; subst.
  inversion Hr2 as [|? ? HqX _]; subst.
  eexists. eexists. split; [|split; [|split; [reflexivity|split;
                                              [reflexivity|]]]].
  - unfold HeavyHexCode.visit. rewrite Hf. cbn [bind Role_eqb].
    rewrite Hz. cbn [bind]. rewrite append_ok.
    + reflexivity.
    + rewrite Hnq. apply py_range_in_range.
    + rewrite Hnc. unfold in_range in *.
      apply Forall_cons; [nia | apply Forall_nil].
  - unfold HeavyHexCode.visit. rewrite HX. cbn [bind Role_eqb].
    unfold HeavyHexCode.visit_ancilla. rewrite Hget. cbn [bind].
    rewrite py_index_0, py_index_1. cbn [bind].
    rewrite Hf. cbn [bind Role_eqb]. rewrite H4. cbn [bind].
    rewrite append_ok.
    + reflexivity.
    + rewrite Hnq'. apply py_range_in_range.
    + rewrite Hnc'. unfold in_range in *.
      repeat (apply Forall_cons; [nia|]). apply Forall_nil.
  - cbn [measures_into existsb]. now rewrite !Z.eqb_refl.
Qed.

Lemma flag_bit_written_twice_witness :
  let qc := mkCircuit 7 7 [OAddRegister 7] in
  exists instz inst4,
    HeavyHexCode.visit diamond 0 qc 4
    = Ok (emit (OAppend instz (py_range 7) [4]) qc)
    /\ HeavyHexCode.visit diamond 0 qc 6
       = Ok (emit (OAppend inst4 (py_range 7) [4; 5; 6]) qc).
Proof.
  intros qc.
  destruct (flag_bit_written_twice
              diamond 0 qc qc 6 4 (mkEdge 4 true) (mkEdge 5 true) []
              (mkInstruction "measure_z" 7 1
                             [GReset 4; GCX 1 4; GCX 0 4; GMeasure 4 0])
              (mkInstruction "measure_x_4" 7 3
                             (built_measure_x_4 6 4 5 0 1 2 3)))
    as (oz & o4 & Hvz & Hv4 & -> & -> & _).
  - reflexivity.
  - reflexivity.
  - reflexivity.
  - reflexivity.
  - reflexivity.
  - reflexivity.
  - repeat (apply Forall_cons; [unfold in_range; cbn; lia|]).
    apply Forall_nil.
  - lia.
  - reflexivity.
  - reflexivity.
  - reflexivity.
  - reflexivity.
  - eexists. eexists. split; [exact Hvz | exact Hv4].
Defined.

(** * Logical qubits and the circuit library *)

(** ** What the library makes of an index *)

Lemma qubit_spec qc i :
  QuantumCircuit.qubit qc i =
  if acceptable (num_qubits qc) i then Ok (wrap (num_qubits qc) i)
  else Raise CircuitError.
Proof.
  unfold QuantumCircuit.qubit, acceptable, wrap.
  destruct (Z.leb_spec 0 i), (Z.ltb_spec i (num_qubits qc)),
    (Z.leb_spec (- num_qubits qc) i), (Z.ltb_spec i 0);
    cbn [andb]; try reflexivity; lia.
Qed.

Lemma acceptable_in_range n i : in_range n i -> acceptable n i = true.
Proof.
  unfold in_range, acceptable. intros H.
  apply andb_true_intro. split; [apply Z.leb_le | apply Z.ltb_lt]; lia.
Qed.

Lemma wrap_in_range n i : in_range n i -> wrap n i = i.
Proof.
  unfold in_range, wrap. intros H.
  destruct (Z.ltb_spec i 0); [lia | reflexivity].
Qed.

Lemma qubit_in_range qc i :
  in_range (num_qubits qc) i -> QuantumCircuit.qubit qc i = Ok i.
Proof.
  intros H. now rewrite qubit_spec, acceptable_in_range, wrap_in_range.
Qed.

Lemma gates_map_gate gs : gates (map OGate gs) = gs.
Proof. induction gs as [|g gs IH]; [reflexivity|]. cbn. now rewrite IH. Qed.

Lemma gates_then_barrier gs : gates (map OGate gs ++ [OBarrier]) = gs.
Proof. rewrite gates_app, gates_map_gate. cbn. apply app_nil_r. Qed.

Ltac library_step n :=
  progress
    (rewrite ?qubit_spec;
     cbn [num_qubits emit QuantumCircuit.new bind];
     repeat match goal with
       | H : acceptable n ?i = _ |- context [acceptable n ?i] =>
           rewrite H; cbn [bind andb forallb negb]
       | H : (wrap n ?i =? wrap n ?j) = _
         |- context [wrap n ?i =? wrap n ?j] =>
           rewrite H; cbn [bind andb forallb negb]
       end;
     try match goal with
       | |- context [acceptable n ?i] =>
           destruct (acceptable n i) eqn:?; cbn [bind andb forallb negb]
       | |- context [wrap n ?i =? wrap n ?j] =>
           destruct (wrap n i =? wrap n j) eqn:?;
           cbn [bind andb forallb negb]
       end).

(** The block of [initialize] and [measure] at work on a fresh
    circuit. *)
Lemma projection_circuit self n k w :
  projection self w (QuantumCircuit.new n k)
  = result_map (fun gs => mkCircuit n k (map OGate gs))
               (stabilizer_outcome self n w).
Proof.
  unfold projection, stabilizer_outcome, cross, addressed.
  unfold QuantumCircuit.cx, QuantumCircuit.h, QuantumCircuit.measure,
    QuantumCircuit.on_qubit.
  cbn [map fst forallb].
  destruct (LQubit.type self).
  - repeat library_step n; try reflexivity.
  - rewrite (Z.eqb_sym (wrap n (LQubit.m_node self + 1))),
      (Z.eqb_sym (wrap n (LQubit.m_node self - 1))),
      (Z.eqb_sym (wrap n (LQubit.m_node self + w))),
      (Z.eqb_sym (wrap n (LQubit.m_node self - w))).
    repeat library_step n; try reflexivity.
Qed.

Lemma circle_gate_circuit self lat :
  LQubit.circle_gate self lat
  = result_map (fun gs => mkCircuit (len_nodes lat) 0
                                    (map OGate gs ++ [OBarrier]))
               (circle_outcome self (len_nodes lat) (width lat)).
Proof.
  unfold LQubit.circle_gate, circle_outcome, cross, addressed.
  unfold QuantumCircuit.z, QuantumCircuit.x, QuantumCircuit.on_qubit.
  cbn [map fst forallb].
  destruct (LQubit.type self);
    repeat library_step (len_nodes lat); reflexivity.
Qed.

Lemma bind_then_map {A B C} (x : result A) (f : A -> result B) (g : B -> C) :
  (a <- x ;; b <- f a ;; Ok (g b)) = result_map g (a <- x ;; f a).
Proof.
  destruct x as [a|e]; [|reflexivity]. cbn [bind].
  now destruct (f a).
Qed.

(** Two switches in a row and then the rest of the method. *)
Lemma switch_two_then lat m a b :
  in_range (len_nodes lat) m ->
  in_range (len_nodes lat) a ->
  exists lat',
    switched m a b lat lat'
    /\ forall (X : Type) (k : M X),
        (_ <~ switch_node m b ;; _ <~ switch_node a b ;; k) lat = k lat'.
Proof.
  intros Hm Ha.
  destruct (switch_two lat m a b Hm Ha) as (lat' & Hsw & Hrun).
  exists lat'. split; [exact Hsw|]. intros X k.
  specialize (Hrun unit tt). unfold mbind, ret in *.
  destruct (switch_node m b lat) as [[[]|e] l1]; [|discriminate].
  destruct (switch_node a b l1) as [[[]|e] l2]; [|discriminate].
  now injection Hrun as ->.
Qed.

(** [initialize()]: the two switches are made, then the library
    decides. *)
Lemma initialize_outcome self lat :
  in_range (len_nodes lat) (LQubit.m_node self) ->
  in_range (len_nodes lat) (LQubit.a_node self) ->
  exists lat',
    switched (LQubit.m_node self) (LQubit.a_node self) false lat lat'
    /\ LQubit.initialize self lat
       = (result_map (fun gs => mkCircuit (len_nodes lat) 1
                                          (map OGate gs ++ [OBarrier]))
                     (stabilizer_outcome self (len_nodes lat) (width lat)),
          lat').
Proof.
  intros Hm Ha.
  destruct (switch_two_then lat _ _ false Hm Ha) as (lat' & Hsw & Hrun).
  exists lat'. split; [exact Hsw|].
  unfold LQubit.initialize. rewrite Hrun. unfold reading.
  rewrite bind_then_map.
  f_equal.
  change (result_map QuantumCircuit.barrier
            (projection self (width lat)
                        (QuantumCircuit.new (len_nodes lat) 1))
          = result_map (fun gs => mkCircuit (len_nodes lat) 1
                                            (map OGate gs ++ [OBarrier]))
                       (stabilizer_outcome self (len_nodes lat) (width lat))).
  rewrite projection_circuit.
  now destruct (stabilizer_outcome self (len_nodes lat) (width lat)).
Qed.

(** [measure()]: the library decides, and the two switches are made
    only when it accepts. *)
Lemma measure_outcome self lat :
  in_range (len_nodes lat) (LQubit.m_node self) ->
  in_range (len_nodes lat) (LQubit.a_node self) ->
  exists lat',
    switched (LQubit.m_node self) (LQubit.a_node self) true lat lat'
    /\ LQubit.measure self lat
       = match stabilizer_outcome self (len_nodes lat) (width lat) with
         | Ok gs => (Ok (mkCircuit (len_nodes lat) 1
                                   (map OGate gs ++ [OBarrier])), lat')
         | Raise e => (Raise e, lat)
         end.
Proof.
  intros Hm Ha.
  destruct (switch_two_then lat _ _ true Hm Ha) as (lat' & Hsw & Hrun).
  exists lat'. split; [exact Hsw|].
  change (LQubit.measure self lat)
    with ((qc <~ reading (fun _ =>
                   projection self (width lat)
                              (QuantumCircuit.new (len_nodes lat) 1)) ;;
           _ <~ switch_node (LQubit.m_node self) true ;;
           _ <~ switch_node (LQubit.a_node self) true ;;
           ret (QuantumCircuit.barrier qc)) lat).
  unfold mbind at 1. unfold reading. rewrite projection_circuit.
  destruct (stabilizer_outcome self (len_nodes lat) (width lat)) as [gs|e];
    cbn [result_map]; [|reflexivity].
  now rewrite Hrun.
Qed.

Lemma stabilizer_outcome_error self n w e :
  stabilizer_outcome self n w = Raise e -> e = CircuitError.
Proof.
  unfold stabilizer_outcome.
  destruct (_ && _); [discriminate | now intros [= <-]].
Qed.

Lemma circle_outcome_error self n w e :
  circle_outcome self n w = Raise e -> e = CircuitError.
Proof.
  unfold circle_outcome.
  destruct (forallb _ _); [discriminate | now intros [= <-]].
Qed.

(** Inside the grid the library accepts the four operands as they
    are. *)
Lemma cross_in_range lat m :
  0 < width lat ->
  in_range (len_nodes lat) (m - width lat) ->
  in_range (len_nodes lat) (m + width lat) ->
  Forall (in_range (len_nodes lat)) (m :: cross m (width lat))
  /\ Forall (fun i => i <> m) (cross m (width lat)).
Proof.
  unfold in_range, cross, addressed. cbn [map fst]. intros Hw Hup Hdown.
  split; repeat (apply Forall_cons; [lia|]); apply Forall_nil.
Qed.

Lemma stabilizer_outcome_interior self lat :
  0 < width lat ->
  in_range (len_nodes lat) (LQubit.m_node self - width lat) ->
  in_range (len_nodes lat) (LQubit.m_node self + width lat) ->
  stabilizer_outcome self (len_nodes lat) (width lat)
  = Ok (stabilizer_gates self (width lat)).
Proof.
  intros Hw Hup Hdown.
  destruct (cross_in_range lat _ Hw Hup Hdown) as [Hin Hne].
  unfold stabilizer_outcome, stabilizer_gates.
  unfold cross, addressed in *. cbn [map fst] in *.
  repeat match goal with
         | H : Forall _ (_ :: _) |- _ =>
             let H1 := fresh in let H2 := fresh in
             inversion H as [|? ? H1 H2]; subst; clear H
         | H : Forall _ [] |- _ => clear H
         end.
  cbn [forallb].
  rewrite !acceptable_in_range, !wrap_in_range by assumption.
  repeat match goal with
         | H : ?i <> ?m |- context [?i =? ?m] =>
             rewrite (proj2 (Z.eqb_neq i m) H)
         end.
  reflexivity.
Qed.

Lemma circle_outcome_interior self lat :
  0 < width lat ->
  in_range (len_nodes lat) (LQubit.m_node self - width lat) ->
  in_range (len_nodes lat) (LQubit.m_node self + width lat) ->
  circle_outcome self (len_nodes lat) (width lat)
  = Ok (map (if LQubit.type self then GZ else GX)
            (cross (LQubit.m_node self) (width lat))).
Proof.
  intros Hw Hup Hdown.
  destruct (cross_in_range lat _ Hw Hup Hdown) as [Hin _].
  unfold circle_outcome.
  unfold cross, addressed in *. cbn [map fst] in *.
  repeat match goal with
         | H : Forall _ (_ :: _) |- _ =>
             let H1 := fresh in let H2 := fresh in
             inversion H as [|? ? H1 H2]; subst; clear H
         | H : Forall _ [] |- _ => clear H
         end.
  cbn [forallb].
  rewrite !acceptable_in_range, !wrap_in_range by assumption.
  reflexivity.
Qed.

(** On the boundary, what the library accepts lands on a qubit that
    is not the neighbour meant. *)
Lemma boundary_wraps lat m :
  0 < width lat ->
  in_range (len_nodes lat) m ->
  ~ interior lat m ->
  forallb (acceptable (len_nodes lat)) (cross m (width lat)) = true ->
  Exists (fun p => ~ neighbour_at lat m (snd p)
                      (wrap (len_nodes lat) (fst p)))
         (addressed m (width lat)).
Proof.
  intros Hw Hm Hnot Hacc.
  unfold cross, addressed in Hacc. cbn [map fst forallb] in Hacc.
  rewrite !andb_true_iff in Hacc. unfold acceptable in Hacc.
  rewrite !andb_true_iff, !Z.leb_le, !Z.ltb_lt in Hacc.
  destruct Hacc as (Hr & Hl & Hd & Hu & _).
  pose proof (Z.mod_pos_bound m (width lat) Hw) as Hx.
  unfold interior in Hnot. unfold addressed, neighbour_at.
  destruct (Z.eq_dec (m mod width lat) 0) as [H0|H0].
  { apply Exists_cons_tl, Exists_cons_hd. cbn [fst snd coords].
    intros [_ Heq]. injection Heq as Heq _.
    pose proof (Z.mod_pos_bound (wrap (len_nodes lat) (m - 1))
                                (width lat) Hw). lia. }
  destruct (Z.eq_dec (m mod width lat) (width lat - 1)) as [H1|H1].
  { apply Exists_cons_hd. cbn [fst snd coords].
    intros [_ Heq]. injection Heq as Heq _.
    pose proof (Z.mod_pos_bound (wrap (len_nodes lat) (m + 1))
                                (width lat) Hw). lia. }
  assert (Hup : m - width lat < 0) by (unfold in_range in *; lia).
  do 3 apply Exists_cons_tl. apply Exists_cons_hd. cbn [fst snd coords].
  intros [_ Heq]. injection Heq as _ Heq.
  unfold wrap in Heq.
  destruct (Z.ltb_spec (m - width lat) 0) as [_|]; [|lia].
  assert (Hy : m / width lat = 0)
    by (apply Z.div_small; unfold in_range in *; lia).
  pose proof (Z.div_pos (m - width lat + len_nodes lat) (width lat)
                        ltac:(lia) Hw).
  lia.
Qed.

(** ** Which nodes [initialize] and [measure] switch *)

(** C6, as the code has it: for a logical qubit whose two nodes are
    nodes of the lattice, [initialize()] leaves the lattice with
    exactly the measurement node and the ancilla node set inactive
    and every other node as it was, whether it returns or the library
    raises on a gate, since the two switches come before the gates;
    [measure()] builds its gates first: when it returns, exactly
    those two nodes are set active and every other node is as it was,
    and when the library raises, no node is changed.  With the
    measurement node strictly inside the grid both calls return. *)
Theorem initialize_measure_switch_as_built
        (self : LQubit.LQubit) (lat : Lattice) :
  in_range (len_nodes lat) (LQubit.m_node self) ->
  in_range (len_nodes lat) (LQubit.a_node self) ->
  (exists r lat',
      LQubit.initialize self lat = (r, lat')
      /\ switched (LQubit.m_node self) (LQubit.a_node self) false lat lat'
      /\ (forall e, r = Raise e -> e = CircuitError))
  /\ (exists r lat',
         LQubit.measure self lat = (r, lat')
         /\ match r with
            | Ok _ => switched (LQubit.m_node self) (LQubit.a_node self)
                               true lat lat'
            | Raise e => e = CircuitError /\ lat' = lat
            end)
  /\ (0 < width lat ->
      interior lat (LQubit.m_node self) ->
      exists qc1 lat1 qc2 lat2,
        LQubit.initialize self lat = (Ok qc1, lat1)
        /\ LQubit.measure self lat = (Ok qc2, lat2)).
Proof.
  intros Hm Ha.
  destruct (initialize_outcome self lat Hm Ha) as (lat1 & Hsw1 & Hrun1).
  destruct (measure_outcome self lat Hm Ha) as (lat2 & Hsw2 & Hrun2).
  split; [|split].
  - eexists. exists lat1. split; [exact Hrun1|]. split; [exact Hsw1|].
    intros e He.
    destruct (stabilizer_outcome self (len_nodes lat) (width lat)) as [gs|e']
      eqn:Hout; [discriminate|].
    injection He as <-. exact (stabilizer_outcome_error _ _ _ _ Hout).
  - destruct (stabilizer_outcome self (len_nodes lat) (width lat)) as [gs|e]
      eqn:Hout.
    + eexists. exists lat2. split; [exact Hrun2 | exact Hsw2].
    + eexists. exists lat. split; [exact Hrun2|].
      split; [exact (stabilizer_outcome_error _ _ _ _ Hout) | reflexivity].
  - intros Hw (_ & _ & Hup & Hdown).
    rewrite (stabilizer_outcome_interior self lat Hw Hup Hdown)
      in Hrun1, Hrun2.
    eexists. exists lat1. eexists. exists lat2.
    split; [exact Hrun1 | exact Hrun2].
Qed.

Lemma initialize_measure_switch_as_built_witness :
  in_range (len_nodes square5) (LQubit.m_node zcut5)
  /\ in_range (len_nodes square5) (LQubit.a_node zcut5)
  /\ (exists r lat',
         LQubit.initialize zcut5 square5 = (r, lat')
         /\ switched 11 13 false square5 lat'
         /\ (forall e, r = Raise e -> e = CircuitError))
  /\ (exists r lat',
         LQubit.measure zcut5 square5_cut = (r, lat')
         /\ match r with
            | Ok _ => switched 11 13 true square5_cut lat'
            | Raise e => e = CircuitError /\ lat' = square5_cut
            end)
  /\ (exists qc1 lat1 qc2 lat2,
         LQubit.initialize zcut5 square5 = (Ok qc1, lat1)
         /\ LQubit.measure zcut5 square5 = (Ok qc2, lat2)).
Proof.
  assert (H11 : in_range (len_nodes square5) (LQubit.m_node zcut5))
    by (unfold in_range; vm_compute; split; [discriminate | reflexivity]).
  assert (H13 : in_range (len_nodes square5) (LQubit.a_node zcut5))
    by (unfold in_range; vm_compute; split; [discriminate | reflexivity]).
  assert (H11' : in_range (len_nodes square5_cut) (LQubit.m_node zcut5))
    by (unfold in_range; vm_compute; split; [discriminate | reflexivity]).
  assert (H13' : in_range (len_nodes square5_cut) (LQubit.a_node zcut5))
    by (unfold in_range; vm_compute; split; [discriminate | reflexivity]).
  split; [exact H11|]. split; [exact H13|].
  split; [|split].
  - exact (proj1 (initialize_measure_switch_as_built zcut5 square5 H11 H13)).
  - exact (proj1 (proj2 (initialize_measure_switch_as_built
                           zcut5 square5_cut H11' H13'))).
  - apply (proj2 (proj2 (initialize_measure_switch_as_built
                           zcut5 square5 H11 H13))).
    + reflexivity.
    + unfold interior, in_range. vm_compute.
      repeat split; discriminate.
Defined.

(** C6 as stated fails for [measure()]: on the 5 by 5 lattice, for
    the Z-cut qubit with measurement node 21 on the bottom row and
    ancilla node 23, [initialize()] switches both nodes off and then
    raises on the gate that addresses index 26; on the lattice so
    left, [measure()] raises on the same gate before it switches
    anything, and both nodes stay inactive. *)
Lemma measure_on_the_edge_counterexample :
  in_range (len_nodes square5_off) (LQubit.m_node edge5)
  /\ in_range (len_nodes square5_off) (LQubit.a_node edge5)
  /\ type_of square5 21 = Ok ZNode
  /\ LQubit.initialize edge5 square5 = (Raise CircuitError, square5_off)
  /\ activity square5_off 21 = Ok false
  /\ activity square5_off 23 = Ok false
  /\ LQubit.measure edge5 square5_off = (Raise CircuitError, square5_off)
  /\ ~ (exists r lat',
           LQubit.measure edge5 square5_off = (r, lat')
           /\ switched 21 23 true square5_off lat').
Proof.
  assert (H21 : in_range (len_nodes square5_off) (LQubit.m_node edge5))
    by (unfold in_range; vm_compute; split; [discriminate | reflexivity]).
  assert (Hrun : LQubit.measure edge5 square5_off
                 = (Raise CircuitError, square5_off))
    by (vm_compute; reflexivity).
  split; [exact H21|].
  split; [unfold in_range; vm_compute; split; [discriminate | reflexivity]|].
  split; [reflexivity|].
  split; [vm_compute; reflexivity|].
  split; [reflexivity|]. split; [reflexivity|].
  split; [exact Hrun|].
  intros (r & lat' & Hr & _ & _ & _ & _ & Hact).
  rewrite Hrun in Hr. injection Hr as _ <-.
  specialize (Hact 21 H21). vm_compute in Hact. discriminate.
Qed.

(** ** The stabilizer is addressed by arithmetic *)

(** C10: [initialize()], [measure()] and [circle_gate()] address the
    four neighbours of the measurement node [m] as [m+1], [m-1],
    [m+width], [m-width] and hand these to the circuit library,
    without any check of their own: what each call comes to is what
    the library makes of the five indices, and the only exception it
    can end in is the library's [CircuitError].  When [m] is strictly
    interior the three calls return, the gates sit on the four
    operands as written, and these are the nodes right, left, below
    and above [m] on the grid.  When it is not, at least one operand
    is out of range or is not that neighbour, and the call either
    ends in the library's error or returns with a gate on a qubit
    that is not the neighbour meant. *)
Theorem stabilizer_addresses_by_arithmetic
        (self : LQubit.LQubit) (lat : Lattice) :
  0 < width lat ->
  in_range (len_nodes lat) (LQubit.m_node self) ->
  in_range (len_nodes lat) (LQubit.a_node self) ->
  (exists r lat',
      LQubit.initialize self lat = (r, lat')
      /\ gates_of r = stabilizer_outcome self (len_nodes lat) (width lat))
  /\ (exists r lat',
         LQubit.measure self lat = (r, lat')
         /\ gates_of r = stabilizer_outcome self (len_nodes lat) (width lat))
  /\ gates_of (LQubit.circle_gate self lat)
     = circle_outcome self (len_nodes lat) (width lat)
  /\ (forall e,
         stabilizer_outcome self (len_nodes lat) (width lat) = Raise e
         \/ circle_outcome self (len_nodes lat) (width lat) = Raise e ->
         e = CircuitError)
  /\ (interior lat (LQubit.m_node self) ->
      stabilizer_outcome self (len_nodes lat) (width lat)
      = Ok (stabilizer_gates self (width lat))
      /\ circle_outcome self (len_nodes lat) (width lat)
         = Ok (map (if LQubit.type self then GZ else GX)
                   (cross (LQubit.m_node self) (width lat)))
      /\ Forall (fun p => neighbour_at lat (LQubit.m_node self)
                                       (snd p) (fst p))
                (addressed (LQubit.m_node self) (width lat)))
  /\ (~ interior lat (LQubit.m_node self) ->
      Exists (fun p => ~ neighbour_at lat (LQubit.m_node self)
                                      (snd p) (fst p))
             (addressed (LQubit.m_node self) (width lat))
      /\ (forall gs,
             stabilizer_outcome self (len_nodes lat) (width lat) = Ok gs
             \/ circle_outcome self (len_nodes lat) (width lat) = Ok gs ->
             Exists (fun p => ~ neighbour_at lat (LQubit.m_node self) (snd p)
                                 (wrap (len_nodes lat) (fst p)))
                    (addressed (LQubit.m_node self) (width lat)))).
Proof.
  intros Hw Hm Ha.
  destruct (initialize_outcome self lat Hm Ha) as (lat1 & _ & Hrun1).
  destruct (measure_outcome self lat Hm Ha) as (lat2 & _ & Hrun2).
  split; [|split; [|split; [|split; [|split]]]].
  - eexists. exists lat1. split; [exact Hrun1|].
    destruct (stabilizer_outcome self (len_nodes lat) (width lat));
      [|reflexivity].
    unfold gates_of. cbn [result_map data]. now rewrite gates_then_barrier.
  - destruct (stabilizer_outcome self (len_nodes lat) (width lat)) as [gs|e].
    + eexists. exists lat2. split; [exact Hrun2|].
      unfold gates_of. cbn [result_map data]. now rewrite gates_then_barrier.
    + eexists. exists lat. split; [exact Hrun2 | reflexivity].
  - rewrite circle_gate_circuit.
    destruct (circle_outcome self (len_nodes lat) (width lat));
      [|reflexivity].
    unfold gates_of. cbn [result_map data]. now rewrite gates_then_barrier.
  - intros e [He|He].
    + exact (stabilizer_outcome_error _ _ _ _ He).
    + exact (circle_outcome_error _ _ _ _ He).
  - intros Hint. pose proof Hint as (_ & _ & Hup & Hdown).
    split; [|split].
    + now apply stabilizer_outcome_interior.
    + now apply circle_outcome_interior.
    + now apply interior_neighbours.
  - intros Hnot. split; [now apply boundary_misses|].
    intros gs Hgs. apply boundary_wraps; try assumption.
    destruct Hgs as [Hgs|Hgs].
    + unfold stabilizer_outcome in Hgs. cbn [forallb] in Hgs.
      destruct (forallb (acceptable (len_nodes lat))
                        (cross (LQubit.m_node self) (width lat)));
        [reflexivity|].
      rewrite andb_false_r in Hgs. discriminate.
    + unfold circle_outcome in Hgs.
      destruct (forallb (acceptable (len_nodes lat))
                        (cross (LQubit.m_node self) (width lat)));
        [reflexivity | discriminate].
Qed.

Lemma stabilizer_addresses_by_arithmetic_witness :
  0 < width square5
  /\ in_range (len_nodes square5) (LQubit.m_node zcut5)
  /\ in_range (len_nodes square5) (LQubit.a_node zcut5)
  /\ interior square5 (LQubit.m_node zcut5)
  /\ (exists r lat',
         LQubit.initialize zcut5 square5 = (r, lat')
         /\ gates_of r = stabilizer_outcome zcut5 25 5)
  /\ (exists r lat',
         LQubit.measure zcut5 square5 = (r, lat')
         /\ gates_of r = stabilizer_outcome zcut5 25 5)
  /\ gates_of (LQubit.circle_gate zcut5 square5) = circle_outcome zcut5 25 5
  /\ stabilizer_outcome zcut5 25 5
     = Ok [GCX 12 11; GCX 10 11; GCX 16 11; GCX 6 11; GMeasure 11 0]
  /\ circle_outcome zcut5 25 5 = Ok [GZ 12; GZ 10; GZ 16; GZ 6]
  /\ Forall (fun p => neighbour_at square5 11 (snd p) (fst p))
            (addressed 11 5).
Proof.
  assert (Hw : 0 < width square5) by reflexivity.
  assert (H11 : in_range (len_nodes square5) (LQubit.m_node zcut5))
    by (unfold in_range; vm_compute; split; [discriminate | reflexivity]).
  assert (H13 : in_range (len_nodes square5) (LQubit.a_node zcut5))
    by (unfold in_range; vm_compute; split; [discriminate | reflexivity]).
  assert (Hint : interior square5 (LQubit.m_node zcut5))
    by (unfold interior, in_range; vm_compute; repeat split; discriminate).
  destruct (stabilizer_addresses_by_arithmetic zcut5 square5 Hw H11 H13)
    as (Hi & Hme & Hc & _ & Hin & _).
  split; [exact Hw|]. split; [exact H11|]. split; [exact H13|].
  split; [exact Hint|]. split; [exact Hi|]. split; [exact Hme|].
  split; [exact Hc|]. exact (Hin Hint).
Defined.

(** On the left edge of [square5] the "left neighbour" of node 5 is
    node 4, the last node of the row above; on the top row the
    "upper neighbour" of node 1 is index -4, which the library takes
    from the end, node 21 of the bottom row; on the bottom row the
    "lower neighbour" of node 21 is index 26, which the library
    refuses. *)
Example stabilizer_wraps_on_the_edge :
  gates_of (LQubit.circle_gate (LQubit.mkLQubit true 5 7) square5)
  = Ok [GZ 6; GZ 4; GZ 10; GZ 0]
  /\ coords 5 5 = (0, 1) /\ coords 5 4 = (4, 0)
  /\ gates_of (LQubit.circle_gate (LQubit.mkLQubit true 1 3) square5)
     = Ok [GZ 2; GZ 0; GZ 6; GZ 21]
  /\ gates_of (LQubit.circle_gate edge5 square5) = Raise CircuitError.
Proof. repeat split. Qed.

(** ** [initialize] and then [measure], inside the grid *)

Lemma grid_edges_active w h :
  Forall (fun kv => Forall (fun k => active k = true) (snd kv))
         (graph (grid w h)).
Proof.
  unfold grid. cbn [graph]. apply Forall_forall. intros kv Hin.
  apply in_map_iff in Hin. destruct Hin as [i [<- _]]. cbn [snd].
  apply Forall_forall. intros k Hk. unfold on_edges in Hk.
  apply in_map_iff in Hk. now destruct Hk as [n [<- _]].
Qed.

(** When the measurement node is strictly inside the grid, the two
    nodes of a logical qubit are active and so is every edge record
    that points at one of them, [initialize()] returns with a changed
    lattice and [measure()] on that lattice returns and hands the
    lattice back exactly as it was. *)
Theorem measure_undoes_initialize (self : LQubit.LQubit) (lat : Lattice) :
  0 < width lat ->
  interior lat (LQubit.m_node self) ->
  in_range (len_nodes lat) (LQubit.a_node self) ->
  activity lat (LQubit.m_node self) = Ok true ->
  activity lat (LQubit.a_node self) = Ok true ->
  Forall (fun kv =>
            Forall (fun k => node k = LQubit.m_node self
                             \/ node k = LQubit.a_node self ->
                             active k = true) (snd kv))
         (graph lat) ->
  exists qc1 lat1 qc2,
    LQubit.initialize self lat = (Ok qc1, lat1)
    /\ lat1 <> lat
    /\ LQubit.measure self lat1 = (Ok qc2, lat).
Proof.
  intros Hw Hint Ha Hmact Haact Hedges.
  pose proof Hint as (_ & _ & Hup & Hdown).
  assert (Hm : in_range (len_nodes lat) (LQubit.m_node self))
    by (unfold in_range in *; lia).
  destruct (initialize_outcome self lat Hm Ha)
    as (lat1 & (Hlen1 & Hw1 & Hg1 & Hty1 & Hact1) & Hrun1).
  rewrite (stabilizer_outcome_interior self lat Hw Hup Hdown) in Hrun1.
  assert (Hm1 : in_range (len_nodes lat1) (LQubit.m_node self))
    by (now rewrite Hlen1).
  assert (Ha1 : in_range (len_nodes lat1) (LQubit.a_node self))
    by (now rewrite Hlen1).
  destruct (measure_outcome self lat1 Hm1 Ha1)
    as (lat2 & (Hlen2 & Hw2 & Hg2 & Hty2 & Hact2) & Hrun2).
  rewrite Hlen1, Hw1 in Hrun2.
  rewrite (stabilizer_outcome_interior self lat Hw Hup Hdown) in Hrun2.
  assert (Heq : lat2 = lat).
  { apply lattice_ext.
    - congruence.
    - congruence.
    - rewrite Hg2, Hg1, map_map.
      rewrite <- (map_id (graph lat)) at 2.
      apply map_ext_in. intros [key es] Hin. cbn [fst snd]. f_equal.
      rewrite map_map. rewrite <- (map_id es) at 2.
      apply map_ext_in. intros k Hk.
      rewrite Forall_forall in Hedges. specialize (Hedges _ Hin).
      cbn [snd] in Hedges. rewrite Forall_forall in Hedges.
      specialize (Hedges _ Hk).
      now apply recache2_undo.
    - intros i Hi. rewrite Hty2 by (now rewrite Hlen1). now apply Hty1.
    - intros i Hi. rewrite Hact2 by (now rewrite Hlen1).
      destruct (Z.eqb_spec i (LQubit.m_node self)) as [->|Hne];
        [now rewrite Hmact|].
      destruct (Z.eqb_spec i (LQubit.a_node self)) as [->|Hne'];
        [now rewrite Haact|].
      cbn [orb]. rewrite Hact1 by assumption.
      destruct (Z.eqb_spec i (LQubit.m_node self)); [contradiction|].
      destruct (Z.eqb_spec i (LQubit.a_node self)); [contradiction|].
      reflexivity. }
  eexists. exists lat1. eexists. split; [|split].
  - exact Hrun1.
  - intros Hsame. subst lat1.
    specialize (Hact1 _ Hm). rewrite Z.eqb_refl in Hact1. cbn in Hact1.
    congruence.
  - rewrite Heq in Hrun2. exact Hrun2.
Qed.

Lemma measure_undoes_initialize_witness :
  0 < width square5
  /\ interior square5 (LQubit.m_node zcut5)
  /\ in_range (len_nodes square5) (LQubit.a_node zcut5)
  /\ activity square5 (LQubit.m_node zcut5) = Ok true
  /\ activity square5 (LQubit.a_node zcut5) = Ok true
  /\ exists qc1 lat1 qc2,
      LQubit.initialize zcut5 square5 = (Ok qc1, lat1)
      /\ lat1 <> square5
      /\ LQubit.measure zcut5 lat1 = (Ok qc2, square5).
Proof.
  assert (Hw : 0 < width square5) by reflexivity.
  assert (Hint : interior square5 (LQubit.m_node zcut5))
    by (unfold interior, in_range; vm_compute; repeat split; discriminate).
  assert (H13 : in_range (len_nodes square5) (LQubit.a_node zcut5))
    by (unfold in_range; vm_compute; split; [discriminate | reflexivity]).
  assert (Hm : activity square5 (LQubit.m_node zcut5) = Ok true)
    by reflexivity.
  assert (Ha : activity square5 (LQubit.a_node zcut5) = Ok true)
    by reflexivity.
  split; [exact Hw|]. split; [exact Hint|]. split; [exact H13|].
  split; [exact Hm|]. split; [exact Ha|].
  apply (measure_undoes_initialize zcut5 square5 Hw Hint H13 Hm Ha).
  eapply Forall_impl; [|apply grid_edges_active].
  intros kv Hkv. eapply Forall_impl; [|exact Hkv].
  intros k Hk _. exact Hk.
Defined.

(** ** A round built after [initialize] *)

(** After [initialize()], whether it returned or the library raised
    on a gate, the gadgets of the surface code leave the two nodes of
    the logical qubit out: the gadget of a node [q] has the
    controlled-NOTs it had before, in the same order, less those with
    the measurement node and the ancilla node. *)
Theorem gadgets_after_initialize
        (self : LQubit.LQubit) (lat : Lattice) (q : Z) (edges : list Edge) :
  in_range (len_nodes lat) (LQubit.m_node self) ->
  in_range (len_nodes lat) (LQubit.a_node self) ->
  dict_get (graph lat) q = Ok edges ->
  in_range (len_nodes lat) q ->
  Forall (in_range (len_nodes lat)) (active_nodes edges) ->
  let kept :=
    filter (fun i => negb ((i =? LQubit.m_node self)
                           || (i =? LQubit.a_node self)))
           (active_nodes edges) in
  exists r lat',
    LQubit.initialize self lat = (r, lat')
    /\ SurfaceCodeCycle._measure_z lat' q =
       Ok (mkInstruction "measure_z" (len_nodes lat) 1
             ([GId q; GReset q]
                ++ map (fun i => GCX i q) kept
                ++ [GMeasure q 0; GId q]))
    /\ SurfaceCodeCycle._measure_x lat' q =
       Ok (mkInstruction "measure_x" (len_nodes lat) 1
             ([GReset q; GH q]
                ++ map (fun i => GCX q i) kept
                ++ [GH q; GMeasure q 0])).
Proof.
  intros Hm Ha Hget Hq Hns kept.
  destruct (initialize_outcome self lat Hm Ha)
    as (lat' & (Hlen & _ & Hg & _ & _) & Hrun).
  assert (Hget' : dict_get (graph lat') q
                  = Ok (map (recache2 (LQubit.m_node self)
                                      (LQubit.a_node self) false) edges)).
  { rewrite Hg, dict_get_map, Hget. reflexivity. }
  assert (Hkept : Forall (in_range (len_nodes lat')) kept).
  { rewrite Hlen. apply Forall_forall. intros i Hi.
    apply filter_In in Hi. rewrite Forall_forall in Hns.
    now apply Hns. }
  eexists. exists lat'. split; [|split].
  - exact Hrun.
  - rewrite (surface_measure_z lat' q _ Hget');
      rewrite ?active_nodes_recache2, ?Hlen; auto.
    now rewrite <- Hlen.
  - rewrite (surface_measure_x lat' q _ Hget');
      rewrite ?active_nodes_recache2, ?Hlen; auto.
    now rewrite <- Hlen.
Qed.

Lemma gadgets_after_initialize_witness :
  exists r lat',
    LQubit.initialize edge5 square5 = (r, lat')
    /\ SurfaceCodeCycle._measure_z lat' 22 =
       Ok (mkInstruction "measure_z" 25 1
             [GId 22; GReset 22; GCX 17 22; GMeasure 22 0; GId 22])
    /\ SurfaceCodeCycle._measure_x lat' 22 =
       Ok (mkInstruction "measure_x" 25 1
             [GReset 22; GH 22; GCX 22 17; GH 22; GMeasure 22 0]).
Proof.
  apply (gadgets_after_initialize edge5 square5 22 (on_edges [17; 21; 23])).
  - unfold in_range; vm_compute; split; [discriminate | reflexivity].
  - unfold in_range; vm_compute; split; [discriminate | reflexivity].
  - reflexivity.
  - unfold in_range; vm_compute; split; [discriminate | reflexivity].
  - repeat (apply Forall_cons;
            [unfold in_range; vm_compute; split;
             [discriminate | reflexivity]|]).
    apply Forall_nil.
Defined.

Lemma square5_ok : lattice_ok square5.
Proof.
  split; [|split].
  - change (keys (graph square5)) with (py_range 25). apply py_range_NoDup.
  - intros i. change (keys (graph square5)) with (py_range 25).
    change (len_nodes square5) with 25. unfold py_range, in_range.
    rewrite in_map_iff. split.
    + intros [k [<- Hk]]. apply in_seq in Hk. lia.
    + intros Hi. exists (Z.to_nat i). split; [lia|]. apply in_seq. lia.
  - change (len_nodes square5) with 25. unfold in_range.
    repeat (apply Forall_cons;
            [repeat (apply Forall_cons; [cbn; lia|]); apply Forall_nil|]).
    apply Forall_nil.
Qed.

(** [initialize()] does not take the measurement node out of the
    cycle: when it is a Z node or an X node of a well-formed lattice,
    then after the call, whether it returned or the library raised on
    a gate, the node is inactive and the round built on the lattice
    still holds its gadget, measured into its classical bit. *)
Theorem deactivated_node_still_measured
        (self : LQubit.LQubit) (lat : Lattice) :
  lattice_ok lat ->
  in_range (len_nodes lat) (LQubit.m_node self) ->
  in_range (len_nodes lat) (LQubit.a_node self) ->
  type_of lat (LQubit.m_node self) = Ok ZNode
  \/ type_of lat (LQubit.m_node self) = Ok XNode ->
  exists r lat' round inst,
    LQubit.initialize self lat = (r, lat')
    /\ activity lat' (LQubit.m_node self) = Ok false
    /\ SurfaceCodeCycle._circuit lat' 1 = Ok round
    /\ In (OAppend inst (py_range (len_nodes lat)) [LQubit.m_node self])
          (data round).
Proof.
  intros Hok Hm Ha Hrole.
  destruct (initialize_outcome self lat Hm Ha) as (lat' & Hsw & Hrun).
  pose proof (switched_lattice_ok _ _ _ _ _ Hsw Hok) as Hok'.
  destruct Hsw as (Hlen & _ & _ & Hty & Hact).
  assert (Hkey : In (LQubit.m_node self) (keys (graph lat'))).
  { apply Hok'. now rewrite Hlen. }
  destruct (dict_get_key _ _ Hkey) as [edges Hget].
  assert (Hnode : exists inst,
             spec_node lat' 0 (LQubit.m_node self)
             = [OAppend inst (py_range (len_nodes lat))
                        [LQubit.m_node self]]).
  { unfold spec_node, spec_gadget. rewrite Hty by assumption.
    rewrite Hget, Hlen, Z.mul_0_l, Z.add_0_r.
    destruct Hrole as [-> | ->]; eexists; reflexivity. }
  destruct Hnode as [inst Hinst].
  eexists. exists lat'. eexists. exists inst. split; [|split; [|split]].
  - exact Hrun.
  - rewrite Hact by assumption. now rewrite Z.eqb_refl.
  - unfold SurfaceCodeCycle._circuit.
    apply (surface_rounds lat' 1 Hok' 0%nat); reflexivity.
  - cbn [data Constrained.new app flat_map map seq]. rewrite app_nil_r.
    unfold spec_round. apply in_or_app. right. apply in_or_app. left.
    apply in_flat_map. exists (LQubit.m_node self). split; [exact Hkey|].
    change (Z.of_nat 0) with 0. rewrite Hinst. now left.
Qed.

Lemma deactivated_node_still_measured_witness :
  lattice_ok square5
  /\ in_range (len_nodes square5) (LQubit.m_node edge5)
  /\ in_range (len_nodes square5) (LQubit.a_node edge5)
  /\ type_of square5 (LQubit.m_node edge5) = Ok ZNode
  /\ exists r lat' round inst,
      LQubit.initialize edge5 square5 = (r, lat')
      /\ activity lat' (LQubit.m_node edge5) = Ok false
      /\ SurfaceCodeCycle._circuit lat' 1 = Ok round
      /\ In (OAppend inst (py_range (len_nodes square5))
                     [LQubit.m_node edge5])
            (data round).
Proof.
  assert (H21 : in_range (len_nodes square5) (LQubit.m_node edge5))
    by (unfold in_range; vm_compute; split; [discriminate | reflexivity]).
  assert (H23 : in_range (len_nodes square5) (LQubit.a_node edge5))
    by (unfold in_range; vm_compute; split; [discriminate | reflexivity]).
  assert (Hz : type_of square5 (LQubit.m_node edge5) = Ok ZNode)
    by reflexivity.
  split; [exact square5_ok|]. split; [exact H21|]. split; [exact H23|].
  split; [exact Hz|].
  exact (deactivated_node_still_measured
           edge5 square5 square5_ok H21 H23 (or_introl Hz)).
Defined.

(** ** Logical operators *)

Lemma every_other_map_seq {A} (f : nat -> A) k :
  forall s,
    LQubit.every_other (map f (seq s (S (2 * k))))
    = map (fun j => f (s + 2 * j + 1)%nat) (seq 0 k).
Proof.
  induction k as [|k IH]; intros s; [reflexivity|].
  replace (2 * S k)%nat with (S (S (2 * k))) by lia.
  change (seq s (S (S (S (2 * k)))))
    with (s :: S s :: seq (S (S s)) (S (2 * k))).
  change (seq 0 (S k)) with (0%nat :: seq 1 k).
  cbn [map LQubit.every_other]. rewrite IH.
  f_equal; [f_equal; lia|].
  rewrite <- seq_shift, map_map. apply map_ext. intros j. f_equal. lia.
Qed.

(** A run of one-qubit gates on nodes of the lattice: the library
    accepts each index as it is. *)
Lemma foldM_on_qubits (mk : Z -> Gate)
      (f : Circuit -> Z -> result Circuit) l :
  (forall qc i, f qc i = QuantumCircuit.on_qubit mk i qc) ->
  forall qc,
    Forall (in_range (num_qubits qc)) l ->
    foldM f l qc = Ok (emit_all (map (fun i => OGate (mk i)) l) qc).
Proof.
  intros Hf. induction l as [|i l IH]; intros qc Hl.
  - cbn. now rewrite emit_all_nil.
  - inversion Hl as [|? ? Hi Hl']; subst.
    cbn [foldM map]. rewrite Hf. unfold QuantumCircuit.on_qubit.
    rewrite qubit_in_range by exact Hi. cbn [bind].
    rewrite IH by exact Hl'.
    now rewrite emit_is_emit_all, emit_all_emit_all.
Qed.

(** The route along a row, from [m] to the right. *)
Lemma spec_route_along_row w m k :
  w <> 0 ->
  (m + Z.of_nat k) / w = m / w ->
  spec_route w m (m + Z.of_nat k)
  = map (fun j => m + Z.of_nat j) (seq 0 (S k)).
Proof.
  intros Hw Hrow.
  pose proof (Z.div_mod m w Hw) as Hm.
  pose proof (Z.div_mod (m + Z.of_nat k) w Hw) as Ha.
  rewrite Hrow in Ha.
  unfold spec_route. rewrite l_path_same_row by (cbn; congruence).
  rewrite !map_map. unfold index_of, coords, run. cbn [fst snd].
  replace (m mod w <=? (m + Z.of_nat k) mod w) with true
    by (symmetry; apply Z.leb_le; lia).
  replace (Z.to_nat ((m + Z.of_nat k) mod w - m mod w)) with k by lia.
  rewrite map_map. apply map_ext. intros j. lia.
Qed.

(** Between two nodes of the lattice in one row, [2k] apart,
    [line_gate] returns: it puts its Pauli gate (X for a Z-cut qubit,
    Z for an X-cut one) on the [k] nodes at odd distance from the
    measurement node and on nothing else, and closes with a
    barrier. *)
Theorem line_gate_between_nodes
        (self : LQubit.LQubit) (lat : Lattice) (k : nat) :
  width lat <> 0 ->
  in_range (len_nodes lat) (LQubit.m_node self) ->
  in_range (len_nodes lat) (LQubit.a_node self) ->
  LQubit.a_node self = LQubit.m_node self + Z.of_nat (2 * k) ->
  LQubit.a_node self / width lat = LQubit.m_node self / width lat ->
  LQubit.line_gate self lat =
  Ok (mkCircuit (len_nodes lat) 0
        (map (fun j => OGate ((if LQubit.type self then GX else GZ)
                                (LQubit.m_node self + Z.of_nat (2 * j + 1))))
             (seq 0 k)
           ++ [OBarrier])).
Proof.
  intros Hw Hm Hin Ha Hrow. unfold LQubit.line_gate.
  rewrite route_spec by assumption. cbn [bind].
  rewrite Ha in *. rewrite spec_route_along_row by assumption.
  rewrite every_other_map_seq.
  rewrite (foldM_on_qubits (if LQubit.type self then GX else GZ)).
  - cbn [bind].
    unfold QuantumCircuit.barrier, emit, emit_all, QuantumCircuit.new.
    cbn [num_qubits num_clbits data app]. rewrite map_map. reflexivity.
  - intros qc i. now destruct (LQubit.type self).
  - cbn [num_qubits QuantumCircuit.new]. apply Forall_forall.
    intros i Hi. apply in_map_iff in Hi. destruct Hi as (j & <- & Hj).
    apply in_seq in Hj. unfold in_range in *. lia.
Qed.

Lemma line_gate_between_nodes_witness :
  LQubit.line_gate zcut5 square5 =
  Ok (mkCircuit 25 0 [OGate (GX 12); OBarrier]).
Proof.
  apply (line_gate_between_nodes zcut5 square5 1).
  - cbn. lia.
  - unfold in_range; vm_compute; split; [discriminate | reflexivity].
  - unfold in_range; vm_compute; split; [discriminate | reflexivity].
  - reflexivity.
  - reflexivity.
Defined.

(** For a logical qubit whose measurement node [m] is strictly inside
    the grid and whose ancilla node is a node of the lattice in the
    row of [m], [2(k+1)] to its right, the logical X and the logical
    Z both return and act on exactly one common node, [m + 1]. *)
Theorem logical_operators_meet_once
        (self : LQubit.LQubit) (lat : Lattice) (k : nat) :
  0 < width lat ->
  interior lat (LQubit.m_node self) ->
  in_range (len_nodes lat) (LQubit.a_node self) ->
  LQubit.a_node self = LQubit.m_node self + Z.of_nat (2 * S k) ->
  LQubit.a_node self / width lat = LQubit.m_node self / width lat ->
  exists qx qz,
    LQubit.logical_X self lat = Ok qx
    /\ LQubit.logical_Z self lat = Ok qz
    /\ forall q,
        In (GX q) (gates (data qx)) /\ In (GZ q) (gates (data qz))
        <-> q = LQubit.m_node self + 1.
Proof.
  intros Hw Hint Hain Ha Hrow.
  pose proof Hint as (_ & _ & Hup & Hdown).
  assert (Hmin : in_range (len_nodes lat) (LQubit.m_node self))
    by (unfold in_range in *; lia).
  assert (Hw' : width lat <> 0) by lia.
  pose proof (line_gate_between_nodes self lat (S k) Hw' Hmin Hain Ha Hrow)
    as Hline.
  pose proof (circle_gate_circuit self lat) as Hcircle.
  rewrite (circle_outcome_interior self lat Hw Hup Hdown) in Hcircle.
  cbn [result_map] in Hcircle.
  pose proof (Z.div_mod (LQubit.m_node self) (width lat) Hw') as Hm.
  pose proof (Z.div_mod (LQubit.a_node self) (width lat) Hw') as Hadm.
  pose proof (Z.mod_pos_bound (LQubit.m_node self) (width lat) Hw) as Hxm.
  pose proof (Z.mod_pos_bound (LQubit.a_node self) (width lat) Hw) as Hxa.
  rewrite Hrow in Hadm.
  assert (Hfar : Z.of_nat (2 * S k) < width lat) by lia.
  assert (Hgl : forall (G : Z -> Gate),
             gates (map (fun j => OGate (G (LQubit.m_node self
                                            + Z.of_nat (2 * j + 1))))
                        (seq 0 (S k)) ++ [OBarrier])
             = map (fun j => G (LQubit.m_node self + Z.of_nat (2 * j + 1)))
                   (seq 0 (S k))).
  { intros G. rewrite gates_app. cbn [gates]. rewrite app_nil_r.
    generalize (seq 0 (S k)). intros l.
    induction l as [|x l IH]; [reflexivity|]. cbn [map gates].
    now rewrite IH. }
  assert (Hin : forall (G : Z -> Gate) q,
             (forall a b, G a = G b -> a = b) ->
             In (G q) (map (fun j => G (LQubit.m_node self
                                        + Z.of_nat (2 * j + 1)))
                           (seq 0 (S k)))
             -> LQubit.m_node self < q < LQubit.m_node self + width lat).
  { intros G q Hinj Hq. apply in_map_iff in Hq.
    destruct Hq as (j & Hj & Hjin). apply in_seq in Hjin.
    apply Hinj in Hj. lia. }
  assert (Hfirst : forall (G : Z -> Gate),
             In (G (LQubit.m_node self + 1))
                (map (fun j => G (LQubit.m_node self + Z.of_nat (2 * j + 1)))
                     (seq 0 (S k)))).
  { intros G. apply in_map_iff. exists 0%nat.
    split; [reflexivity | apply in_seq; lia]. }
  unfold LQubit.logical_X, LQubit.logical_Z. rewrite Hline, Hcircle.
  destruct (LQubit.type self); eexists; eexists;
    (split; [reflexivity|]); (split; [reflexivity|]);
    intros q; cbn [data]; rewrite Hgl, gates_then_barrier.
  - split.
    + intros [Hx Hz]. apply Hin in Hx; [|now intros a b [= ->]].
      cbn in Hz.
      destruct Hz as [Hz|[Hz|[Hz|[Hz|[]]]]]; injection Hz as Hz; lia.
    + intros ->. split; [apply Hfirst|]. cbn. now left.
  - split.
    + intros [Hx Hz]. apply Hin in Hz; [|now intros a b [= ->]].
      cbn in Hx.
      destruct Hx as [Hx|[Hx|[Hx|[Hx|[]]]]]; injection Hx as Hx; lia.
    + intros ->. split; [|apply Hfirst]. cbn. now left.
Qed.

Lemma logical_operators_meet_once_witness :
  0 < width square5
  /\ interior square5 (LQubit.m_node zcut5)
  /\ in_range (len_nodes square5) (LQubit.a_node zcut5)
  /\ exists qx qz,
      LQubit.logical_X zcut5 square5 = Ok qx
      /\ LQubit.logical_Z zcut5 square5 = Ok qz
      /\ forall q,
          In (GX q) (gates (data qx)) /\ In (GZ q) (gates (data qz))
          <-> q = LQubit.m_node zcut5 + 1.
Proof.
  assert (Hw : 0 < width square5) by reflexivity.
  assert (Hint : interior square5 (LQubit.m_node zcut5))
    by (unfold interior, in_range; vm_compute; repeat split; discriminate).
  assert (H13 : in_range (len_nodes square5) (LQubit.a_node zcut5))
    by (unfold in_range; vm_compute; split; [discriminate | reflexivity]).
  split; [exact Hw|]. split; [exact Hint|]. split; [exact H13|].
  exact (logical_operators_meet_once zcut5 square5 0 Hw Hint H13
                                     eq_refl eq_refl).
Defined.
